(** * DynamicBitmapFont and the MSDF shader bit: a shallow embedding

    The glyph-atlas packer of [src/scene/text-bitmap/DynamicBitmapFont.ts]
    and the two [calculateMSDFAlpha] shader headers of
    [src/scene/text/sdfShader/shader-bits/mSDFBit.ts].

    JavaScript numbers are embedded as exact rationals ([Q]); the shader
    arithmetic as exact reals ([R]).  A JavaScript string is a [string];
    a "character" of the font is a string holding one character.  The
    font object is a record threaded through every method; the calls the
    font makes to its collaborators (text measurement, glyph drawing,
    texture upload, canvas pool) are appended to a trace kept in the
    record, so that "is measured", "is rasterized" and "has no side
    effect" are statements about the trace. *)

From Stdlib Require Import ZArith QArith Qround Lia Lra String Ascii List.
From Stdlib Require Import Reals.
From stdpp Require Import base option list gmap strings.

Local Open Scope Q_scope.

(** ** JavaScript number helpers *)

(** [a > b] on numbers. *)
Definition Qgtb (a b : Q) : bool := negb (Qle_bool a b).

(** Truthiness of a number: every number but zero (NaN does not arise in
    exact arithmetic). *)
Definition truthy (a : Q) : bool := negb (Qeq_bool a 0).

(** [Math.ceil]. *)
Definition Math_ceil (a : Q) : Q := inject_Z (Qceiling a).

(** [Math.max] of two numbers. *)
Definition Math_max (a b : Q) : Q := if Qle_bool a b then b else a.

(** [a ?? d]. *)
Definition nullish {A} (a : option A) (d : A) : A :=
  match a with Some v => v | None => d end.

(** ** JavaScript array helpers *)

(** [self.includes(x)] on an array of strings. *)
Definition includes (self : list string) (x : string) : bool :=
  existsb (String.eqb x) self.

(** [self.indexOf(x)]: the first index holding [x], or [-1]. *)
Fixpoint indexOf_from (i : Z) (self : list string) (x : string) : Z :=
  match self with
  | [] => (-1)%Z
  | y :: rest => if String.eqb y x then i else indexOf_from (i + 1)%Z rest x
  end.

Definition indexOf (self : list string) (x : string) : Z := indexOf_from 0 self x.

(** [self.filter((x, index, self) => p x index self)]. *)
Fixpoint filter_from {A} (p : A -> Z -> bool) (i : Z) (l : list A) : list A :=
  match l with
  | [] => []
  | x :: rest =>
      if p x i then x :: filter_from p (i + 1)%Z rest else filter_from p (i + 1)%Z rest
  end.

Definition filter_indexed {A} (p : A -> Z -> list A -> bool) (self : list A) : list A :=
  filter_from (fun x i => p x i self) 0%Z self.

(** An array may hold holes ([undefined]); [a[i] = v] past the end
    extends it. *)
Definition array_get {A} (a : list (option A)) (i : Z) : option A :=
  if (i <? 0)%Z then None else mjoin (a !! Z.to_nat i).

Definition array_set {A} (a : list (option A)) (i : Z) (v : A) : list (option A) :=
  let n := Z.to_nat i in
  if (n <? length a)%nat then <[n := Some v]> a
  else a ++ replicate (n - length a) None ++ [Some v].

(** ** Data model *)

(** The part of [TextStyle] the font reads: [fontSize], [fontStyle], the
    stroke width ([_stroke?.width]) and the drop-shadow distance
    ([dropShadow?.distance]). *)
Record TextStyle := mkTextStyle {
  fontSize : Q;
  fontStyle : string;
  _stroke : option Q;
  dropShadow : option Q
}.

Record DynamicBitmapFontOptions := mkOptions {
  o_style : TextStyle;
  o_skipKerning : option bool;
  o_resolution : option Q;
  o_padding : option Q;
  o_overrideSize : bool;
  o_textureSize : option Q;
  o_mipmap : option bool
}.

(** A canvas from the pool, by its raw pixel size. *)
Record Canvas := mkCanvas { cv_width : Q; cv_height : Q }.

(** A texture source: its identity (the index of the page it was created
    for), its size and its resolution. *)
Record TextureSource := mkSource {
  src_page : Z;
  src_width : Q;
  src_height : Q;
  src_resolution : Q
}.

Record PageData := mkPage { canvasAndContext : Canvas; pg_texture : TextureSource }.

Record Rectangle := mkRect { r_x : Q; r_y : Q; r_width : Q; r_height : Q }.

Record Texture := mkTexture { source : TextureSource; frame : Rectangle }.

Record CharData := mkChar {
  id : option N;
  xOffset : Q;
  yOffset : Q;
  xAdvance : Q;
  kerning : gmap string Q;
  texture : option Texture
}.

(** What [CanvasTextMetrics.measureText] returns, as far as the font
    reads it. *)
Record CanvasTextMetrics := mkMetrics { m_text : string; m_height : Q; m_lineHeight : Q }.

(** Calls to the collaborators, in the order they are made. *)
Inductive Event :=
| EvMeasureTextWidth (text : string)
| EvMeasureText (text : string)
| EvDrawGlyph (page : Z) (char : string) (x y fontScale : Q)
| EvSourceUpdate (page : Z)
| EvGetCanvas (minWidth minHeight resolution : Q)
| EvSetupContext (page : Z) (resolution : Q).

Record DynamicBitmapFont := mkFont {
  baseRenderedFontSize : Q;
  baseMeasurementFontSize : Q;
  resolution : Q;
  _padding : Q;
  _style : TextStyle;
  _skipKerning : bool;
  _textureSize : Q;
  _mipmap : bool;
  pages : list (option PageData);
  chars : gmap string CharData;
  _measureCache : gmap string Q;
  _currentChars : list string;
  _currentX : Q;
  _currentY : Q;
  _currentPageIndex : Z;
  trace : list Event
}.

Definition set_pages (v : list (option PageData)) (f : DynamicBitmapFont) :=
  mkFont (baseRenderedFontSize f) (baseMeasurementFontSize f) (resolution f) (_padding f)
    (_style f) (_skipKerning f) (_textureSize f) (_mipmap f)
    v (chars f) (_measureCache f) (_currentChars f) (_currentX f) (_currentY f)
    (_currentPageIndex f) (trace f).

Definition set_chars (v : gmap string CharData) (f : DynamicBitmapFont) :=
  mkFont (baseRenderedFontSize f) (baseMeasurementFontSize f) (resolution f) (_padding f)
    (_style f) (_skipKerning f) (_textureSize f) (_mipmap f)
    (pages f) v (_measureCache f) (_currentChars f) (_currentX f) (_currentY f)
    (_currentPageIndex f) (trace f).

Definition set_measureCache (v : gmap string Q) (f : DynamicBitmapFont) :=
  mkFont (baseRenderedFontSize f) (baseMeasurementFontSize f) (resolution f) (_padding f)
    (_style f) (_skipKerning f) (_textureSize f) (_mipmap f)
    (pages f) (chars f) v (_currentChars f) (_currentX f) (_currentY f)
    (_currentPageIndex f) (trace f).

Definition set_currentChars (v : list string) (f : DynamicBitmapFont) :=
  mkFont (baseRenderedFontSize f) (baseMeasurementFontSize f) (resolution f) (_padding f)
    (_style f) (_skipKerning f) (_textureSize f) (_mipmap f)
    (pages f) (chars f) (_measureCache f) v (_currentX f) (_currentY f)
    (_currentPageIndex f) (trace f).

Definition set_cursor (x y : Q) (f : DynamicBitmapFont) :=
  mkFont (baseRenderedFontSize f) (baseMeasurementFontSize f) (resolution f) (_padding f)
    (_style f) (_skipKerning f) (_textureSize f) (_mipmap f)
    (pages f) (chars f) (_measureCache f) (_currentChars f) x y
    (_currentPageIndex f) (trace f).

Definition set_currentPageIndex (v : Z) (f : DynamicBitmapFont) :=
  mkFont (baseRenderedFontSize f) (baseMeasurementFontSize f) (resolution f) (_padding f)
    (_style f) (_skipKerning f) (_textureSize f) (_mipmap f)
    (pages f) (chars f) (_measureCache f) (_currentChars f) (_currentX f) (_currentY f)
    v (trace f).

(** Record one more collaborator call. *)
Definition emit (e : Event) (f : DynamicBitmapFont) :=
  mkFont (baseRenderedFontSize f) (baseMeasurementFontSize f) (resolution f) (_padding f)
    (_style f) (_skipKerning f) (_textureSize f) (_mipmap f)
    (pages f) (chars f) (_measureCache f) (_currentChars f) (_currentX f) (_currentY f)
    (_currentPageIndex f) (trace f ++ [e]).

(** The four characters the packer treats as empty. *)
Definition LF : string := String (ascii_of_nat 10) EmptyString.
Definition CR : string := String (ascii_of_nat 13) EmptyString.
Definition TAB : string := String (ascii_of_nat 9) EmptyString.
Definition SPACE : string := " "%string.

(** [char !== '\n' && char !== '\r' && char !== '\t' && char !== ' '] *)
Definition is_visible (char : string) : bool :=
  negb (String.eqb char LF) && negb (String.eqb char CR)
  && negb (String.eqb char TAB) && negb (String.eqb char SPACE).

(** [char.codePointAt(0)]. *)
Definition codePointAt0 (char : string) : option N :=
  match char with
  | EmptyString => None
  | String a _ => Some (N_of_ascii a)
  end.

(** A [for] loop over an array whose body may throw. *)
Fixpoint for_each {A S} (body : A -> S -> option S) (l : list A) (s : S) : option S :=
  match l with
  | [] => Some s
  | x :: rest => match body x s with
                 | Some s' => for_each body rest s'
                 | None => None
                 end
  end.

(** The locals of the packing loop of [ensureCharacters]: the active
    page ([canvas], [context] and [textureSource] are always those of one
    page), the cursor, the running shelf height and [skipTexture]. *)
Record Locals := mkLocals {
  pageData : PageData;
  currentX : Q;
  currentY : Q;
  maxCharHeight : Q;
  skipTexture : bool
}.

(** ** The methods of [DynamicBitmapFont] *)

Section Font.

(** *** Collaborators

    [resolveCharacters] (utils/resolveCharacters), the two measurement
    entry points of [CanvasTextMetrics], the canvas pool and the size an
    [ImageSource] reports for a canvas and a resolution are code outside
    the two files; so are the initial values of the two base font sizes,
    which [AbstractBitmapFont] declares.  [measureTextWidth] is called
    with a context whose font [_setupContext] installs, the same for
    every page of one font, so it is a function of the text alone. *)
Variable resolveCharacters : string -> list string.
Variable measureTextWidth : string -> Q.
Variable measureText : string -> TextStyle -> Canvas -> CanvasTextMetrics.
Variable getOptimalCanvasAndContext : Q -> Q -> Q -> Canvas.
Variable ImageSource_size : Canvas -> Q -> Q * Q.
Variable AbstractBitmapFont_baseRenderedFontSize : Q.
Variable AbstractBitmapFont_baseMeasurementFontSize : Q.

(** *** constructor *)
Definition new_DynamicBitmapFont (options : DynamicBitmapFontOptions) : DynamicBitmapFont :=
  let style := o_style options in
  let requestedFontSize := fontSize style in
  let rendered0 := AbstractBitmapFont_baseRenderedFontSize in
  let measurement := AbstractBitmapFont_baseMeasurementFontSize in
  let '(style', rendered) :=
    if o_overrideSize options then
      (mkTextStyle measurement (fontStyle style)
         (match _stroke style with
          | Some w => Some (w * (rendered0 / requestedFontSize))
          | None => None
          end)
         (dropShadow style),
       rendered0)
    else
      (mkTextStyle requestedFontSize (fontStyle style) (_stroke style) (dropShadow style),
       requestedFontSize) in
  mkFont rendered measurement
    (nullish (o_resolution options) 1)
    (nullish (o_padding options) 4)
    style'
    (nullish (o_skipKerning options) false)
    (nullish (o_textureSize options) 512)
    (nullish (o_mipmap options) true)
    [] ∅ ∅ [] 0 0 (-1)%Z [].

(** *** _nextPage *)
Definition _nextPage (this : DynamicBitmapFont) : DynamicBitmapFont * PageData :=
  let this := set_currentPageIndex (_currentPageIndex this + 1)%Z this in
  let textureResolution := resolution this in
  let canvas :=
    getOptimalCanvasAndContext (_textureSize this) (_textureSize this) textureResolution in
  let this := emit (EvGetCanvas (_textureSize this) (_textureSize this) textureResolution) this in
  let this := emit (EvSetupContext (_currentPageIndex this) textureResolution) this in
  let resolution' :=
    textureResolution * (baseRenderedFontSize this / baseMeasurementFontSize this) in
  let '(w, h) := ImageSource_size canvas resolution' in
  let page := mkPage canvas (mkSource (_currentPageIndex this) w h resolution') in
  (set_pages (array_set (pages this) (_currentPageIndex this) page) this, page).

(** *** _applyKerning *)

(** [let c = measureCache[ch]; if (!c) c = measureCache[ch] = measureTextWidth(ch)] *)
Definition measureCached (ch : string) (this : DynamicBitmapFont) : Q * DynamicBitmapFont :=
  let miss :=
    let v := measureTextWidth ch in
    (v, set_measureCache (<[ch := v]> (_measureCache this))
          (emit (EvMeasureTextWidth ch) this)) in
  match _measureCache this !! ch with
  | Some c => if truthy c then (c, this) else miss
  | None => miss
  end.

(** [this.chars[a].kerning[b] = amount]; throws when [chars[a]] is
    missing. *)
Definition set_kerning (a b : string) (amount : Q) (this : DynamicBitmapFont)
  : option DynamicBitmapFont :=
  match chars this !! a with
  | Some cd =>
      Some (set_chars
              (<[a := mkChar (id cd) (xOffset cd) (yOffset cd) (xAdvance cd)
                        (<[b := amount]> (kerning cd)) (texture cd)]> (chars this))
              this)
  | None => None
  end.

(** The body of the inner loop. *)
Definition kerning_pair (first second : string) (this : DynamicBitmapFont)
  : option DynamicBitmapFont :=
  let '(c1, this) := measureCached first this in
  let '(c2, this) := measureCached second this in
  let total := measureTextWidth (first ++ second) in
  let this := emit (EvMeasureTextWidth (first ++ second)) this in
  let amount := total - (c1 + c2) in
  match (if truthy amount then set_kerning first second amount this else Some this) with
  | None => None
  | Some this =>
      let total := measureTextWidth (first ++ second) in
      let this := emit (EvMeasureTextWidth (first ++ second)) this in
      let amount := total - (c1 + c2) in
      if truthy amount then set_kerning second first amount this else Some this
  end.

(** The body of the outer loop: one new character against every
    current character. *)
Definition kerning_first (first : string) (this : DynamicBitmapFont)
  : option DynamicBitmapFont :=
  for_each (kerning_pair first) (_currentChars this) this.

Definition _applyKerning (newChars : list string) (this : DynamicBitmapFont)
  : option DynamicBitmapFont :=
  for_each kerning_first newChars this.

(** *** ensureCharacters *)

Definition paddedWidth_of (this : DynamicBitmapFont) (charWidth : Q) : Q :=
  let fontScale := baseRenderedFontSize this / baseMeasurementFontSize this in
  let padding := _padding this * fontScale in
  let width := charWidth * fontScale in
  let textureGlyphWidth :=
    Math_ceil ((if String.eqb (fontStyle (_style this)) "italic" then 2 else 1) * width) in
  textureGlyphWidth + padding * 2.

Definition paddedHeight_of (this : DynamicBitmapFont) (metricsHeight : Q) : Q :=
  let fontScale := baseRenderedFontSize this / baseMeasurementFontSize this in
  let padding := _padding this * fontScale in
  let height := metricsHeight * fontScale in
  height + padding * 2.

(** Lines 189-209: the placement test, the move to a new shelf and the
    move to a new page.  [mch] is [maxCharHeight] as line 186 left it. *)
Definition place (maxTextureWidth maxTextureHeight paddedWidth paddedHeight mch : Q)
    (this : DynamicBitmapFont) (l : Locals) : DynamicBitmapFont * Locals :=
  if Qgtb (currentX l + paddedWidth) maxTextureWidth then
    let currentY' := currentY l + mch in
    let mch' := paddedHeight in
    if Qgtb (currentY' + mch') maxTextureHeight then
      let this := emit (EvSourceUpdate (src_page (pg_texture (pageData l)))) this in
      let '(this, page) := _nextPage this in
      (this, mkLocals page 0 0 mch' (skipTexture l))
    else (this, mkLocals (pageData l) 0 currentY' mch' (skipTexture l))
  else (this, mkLocals (pageData l) (currentX l) (currentY l) mch (skipTexture l)).

(** Lines 236-249: the frame of a glyph placed at [(x, y)]. *)
Definition glyph_frame (textureSource : TextureSource) (fontScale x y paddedWidth paddedHeight : Q)
  : Rectangle :=
  let px := src_width textureSource * fontScale in
  let py := src_height textureSource * fontScale in
  mkRect (x / px * src_width textureSource)
         (y / py * src_height textureSource)
         (paddedWidth / px * src_width textureSource)
         (paddedHeight / py * src_height textureSource).

(** The advance lines 212-214 compute for a character. *)
Definition advance_of (this : DynamicBitmapFont) (char : string) : Q :=
  measureTextWidth char
  - nullish (dropShadow (_style this)) 0
  - nullish (_stroke (_style this)) 0.

(** Lines 211-252: the glyph record and, for a glyph that is drawn, the
    draw call, the texture and the move of the cursor.  [l] holds the
    locals as the placement test left them. *)
Definition record_glyph (char : string) (charWidth paddedWidth paddedHeight : Q)
    (this : DynamicBitmapFont) (l : Locals) : DynamicBitmapFont * Locals :=
  let style := _style this in
  let fontScale := baseRenderedFontSize this / baseMeasurementFontSize this in
  let padding := _padding this * fontScale in
  let xAdvance := charWidth - nullish (dropShadow style) 0 - nullish (_stroke style) 0 in
  let this :=
    set_chars (<[char := mkChar (codePointAt0 char) (- _padding this) (- _padding this)
                           xAdvance ∅ None]> (chars this)) this in
  if skipTexture l then
    let this :=
      emit (EvDrawGlyph (src_page (pg_texture (pageData l))) char
              (currentX l + padding) (currentY l + padding) fontScale) this in
    let textureSource := pg_texture (pageData l) in
    let frame :=
      glyph_frame textureSource fontScale (currentX l) (currentY l) paddedWidth paddedHeight in
    let this :=
      set_chars (<[char := mkChar (codePointAt0 char) (- _padding this) (- _padding this)
                             xAdvance ∅ (Some (mkTexture textureSource frame))]> (chars this))
        this in
    (this, mkLocals (pageData l) (currentX l + Math_ceil paddedWidth) (currentY l)
             (maxCharHeight l) (skipTexture l))
  else (this, l).

(** Lines 159-187: the two measurements, the padded box, [skipTexture]
    and the running shelf height. *)
Definition shelf_height (char : string) (paddedHeight maxCharHeight : Q) : Q :=
  if is_visible char then Math_ceil (Math_max paddedHeight maxCharHeight)
  else maxCharHeight.

(** The body of the packing loop (lines 159-252). *)
Definition pack_char (maxTextureWidth maxTextureHeight : Q)
    (st : DynamicBitmapFont * Locals) (char : string) : DynamicBitmapFont * Locals :=
  let this := fst st in
  let l := snd st in
  let charWidth := measureTextWidth char in
  let this := emit (EvMeasureTextWidth char) this in
  let metrics := measureText char (_style this) (canvasAndContext (pageData l)) in
  let this := emit (EvMeasureText char) this in
  let metrics := mkMetrics (m_text metrics) (m_height metrics) (m_height metrics) in
  let paddedWidth := paddedWidth_of this charWidth in
  let paddedHeight := paddedHeight_of this (m_height metrics) in
  let mch := shelf_height char paddedHeight (maxCharHeight l) in
  let placed :=
    place maxTextureWidth maxTextureHeight paddedWidth paddedHeight mch this
      (mkLocals (pageData l) (currentX l) (currentY l) (maxCharHeight l) (is_visible char)) in
  record_glyph char charWidth paddedWidth paddedHeight (fst placed) (snd placed).

(** The filtered, de-duplicated list of new characters (lines 120-122). *)
Definition new_characters (chars_ : string) (this : DynamicBitmapFont) : list string :=
  filter_indexed (fun char index self => (indexOf self char =? index)%Z)
    (List.filter (fun char => negb (includes (_currentChars this) char))
       (resolveCharacters chars_)).

(** A visible character that measures [w] by [h]. *)
Definition uniform (w h : Q) (c : string) : Prop :=
  is_visible c = true
  /\ measureTextWidth c = w
  /\ forall style canvas, m_height (measureText c style canvas) = h.

(** Lines 154-155 on a page made by [_nextPage]: the usable width and
    height of a page. *)
Definition pageUsableWidth (this : DynamicBitmapFont) : Q :=
  cv_width (getOptimalCanvasAndContext (_textureSize this) (_textureSize this)
              (resolution this))
  / resolution this.

Definition pageUsableHeight (this : DynamicBitmapFont) : Q :=
  cv_height (getOptimalCanvasAndContext (_textureSize this) (_textureSize this)
               (resolution this))
  / resolution this.

(** Lines 325-341: the width and the height of the texture source of a
    page of this font. *)
Definition pageSourceSize (this : DynamicBitmapFont) : Q * Q :=
  ImageSource_size
    (getOptimalCanvasAndContext (_textureSize this) (_textureSize this) (resolution this))
    (resolution this * (baseRenderedFontSize this / baseMeasurementFontSize this)).

(** Lines 127-260: the new characters join the current ones, the
    active page is fetched or made, the loop runs, the page is uploaded
    and the cursor stored. *)
Definition pack_characters (charList : list string) (this : DynamicBitmapFont)
  : option DynamicBitmapFont :=
  let this := set_currentChars (_currentChars this ++ charList) this in
  match (if (_currentPageIndex this =? -1)%Z then Some (_nextPage this)
         else match array_get (pages this) (_currentPageIndex this) with
              | Some page => Some (this, page)
              | None => None
              end) with
  | None => None
  | Some (this, page) =>
      let maxTextureWidth := cv_width (canvasAndContext page) / resolution this in
      let maxTextureHeight := cv_height (canvasAndContext page) / resolution this in
      let st :=
        fold_left (pack_char maxTextureWidth maxTextureHeight) charList
          (this, mkLocals page (_currentX this) (_currentY this) 0 false) in
      let this := emit (EvSourceUpdate (src_page (pg_texture (pageData (snd st))))) (fst st) in
      Some (set_cursor (currentX (snd st)) (currentY (snd st)) this)
  end.

Definition ensureCharacters (chars_ : string) (this : DynamicBitmapFont)
  : option DynamicBitmapFont :=
  let charList := new_characters chars_ this in
  if (length charList =? 0)%nat then Some this
  else
    match pack_characters charList this with
    | None => None
    | Some this => if _skipKerning this then _applyKerning charList this else Some this
    end.

End Font.

(** ** Observations on a font *)

(** The frame recorded for a character, if it has a texture. *)
Definition frame_of (this : DynamicBitmapFont) (char : string) : option Rectangle :=
  match chars this !! char with
  | Some cd => match texture cd with
               | Some t => Some (frame t)
               | None => None
               end
  | None => None
  end.

(** The page a character's texture points into. *)
Definition page_of (this : DynamicBitmapFont) (char : string) : option Z :=
  match chars this !! char with
  | Some cd => match texture cd with
               | Some t => Some (src_page (source t))
               | None => None
               end
  | None => None
  end.

(** The kerning entry [chars[a].kerning[b]]. *)
Definition kerning_of (this : DynamicBitmapFont) (a b : string) : option Q :=
  match chars this !! a with
  | Some cd => kerning cd !! b
  | None => None
  end.

(** The recorded advance of a character. *)
Definition xAdvance_of (this : DynamicBitmapFont) (char : string) : option Q :=
  match chars this !! char with
  | Some cd => Some (xAdvance cd)
  | None => None
  end.

(** How often the width of [text] was asked of the measurement
    collaborator. *)
Definition is_measure_of (text : string) (e : Event) : bool :=
  match e with
  | EvMeasureTextWidth t => String.eqb t text
  | _ => false
  end.

Definition count_measureTextWidth (text : string) (tr : list Event) : nat :=
  length (List.filter (is_measure_of text) tr).

(** Whether a glyph was drawn for [char]. *)
Definition is_draw_of (char : string) (e : Event) : bool :=
  match e with
  | EvDrawGlyph _ c _ _ _ => String.eqb c char
  | _ => false
  end.

(** A font as the constructor and [ensureCharacters] leave it: the
    current page exists once a page was asked for, and every current
    character has its record. *)
Definition font_ok (this : DynamicBitmapFont) : Prop :=
  (_currentPageIndex this = (-1)%Z \/
   (0 <= _currentPageIndex this)%Z /\
   is_Some (array_get (pages this) (_currentPageIndex this)))
  /\ (forall c, In c (_currentChars this) -> is_Some (chars this !! c)).

(** The stroke width the constructor leaves in [_style] (lines 94-107). *)
Definition effective_stroke (rendered0 : Q) (options : DynamicBitmapFontOptions) : option Q :=
  match _stroke (o_style options) with
  | Some w =>
      if o_overrideSize options
      then Some (w * (rendered0 / fontSize (o_style options)))
      else Some w
  | None => None
  end.

(** The fields no method changes after the constructor, and the list of
    current characters, which only the head of [ensureCharacters]
    changes. *)
Definition same_setup (a b : DynamicBitmapFont) : Prop :=
  baseRenderedFontSize b = baseRenderedFontSize a
  /\ baseMeasurementFontSize b = baseMeasurementFontSize a
  /\ resolution b = resolution a
  /\ _padding b = _padding a
  /\ _style b = _style a
  /\ _skipKerning b = _skipKerning a
  /\ _textureSize b = _textureSize a
  /\ _mipmap b = _mipmap a
  /\ _currentChars b = _currentChars a.

(** A glyph record without its kerning table. *)
Definition strip_kerning (cd : CharData) : CharData :=
  mkChar (id cd) (xOffset cd) (yOffset cd) (xAdvance cd) ∅ (texture cd).

(** [b] differs from [a] at most in kerning tables, the measure cache and
    the trace. *)
Definition kerning_only (a b : DynamicBitmapFont) : Prop :=
  same_setup a b
  /\ pages b = pages a
  /\ _currentPageIndex b = _currentPageIndex a
  /\ _currentX b = _currentX a
  /\ _currentY b = _currentY a
  /\ strip_kerning <$> chars b = strip_kerning <$> chars a.

(** A row of [room] holds exactly [n] boxes of [size]: the packer steps
    by [Math.ceil size] from one box to the next (lines 251 and 186-191),
    so the [n]-th box, at offset [(n - 1) * ceil size], still ends within
    [room] and a box at offset [n * ceil size] does not. *)
Definition holds_exactly (n : nat) (size room : Q) : Prop :=
  inject_Z (Z.of_nat (n - 1)) * Math_ceil size + size <= room
  /\ room < inject_Z (Z.of_nat n) * Math_ceil size + size.

(** The loop after [r] glyphs on shelf [q] of the first page [page0],
    for glyphs whose padded box is [ph] high and steps the cursor by [cw]
    across and [chh] down. *)
Definition on_shelf (base : DynamicBitmapFont) (page0 : PageData) (cw chh : Z) (ph : Q)
    (q r : nat) (st : DynamicBitmapFont * Locals) : Prop :=
  same_setup base (fst st)
  /\ pages (fst st) = [Some page0]
  /\ _currentPageIndex (fst st) = 0%Z
  /\ pageData (snd st) = page0
  /\ currentX (snd st) == inject_Z (Z.of_nat r * cw)
  /\ currentY (snd st) == inject_Z (Z.of_nat q * chh)
  /\ (maxCharHeight (snd st) == 0 \/ maxCharHeight (snd st) == ph
      \/ maxCharHeight (snd st) == inject_Z chh)
  /\ (forall c, is_Some (chars (fst st) !! c) -> page_of (fst st) c = Some 0%Z).

(** The current page exists. *)
Definition page_ok (this : DynamicBitmapFont) : Prop :=
  (0 <= _currentPageIndex this)%Z
  /\ is_Some (array_get (pages this) (_currentPageIndex this)).

(** ** The life of a font *)

Definition is_getCanvas (e : Event) : bool :=
  match e with EvGetCanvas _ _ _ => true | _ => false end.

(** How many canvases the font took from the pool. *)
Definition count_getCanvas (tr : list Event) : nat :=
  length (List.filter is_getCanvas tr).

(** A draw call for one of the four empty characters. *)
Definition draws_empty (e : Event) : bool :=
  match e with
  | EvDrawGlyph _ c _ _ _ => negb (is_visible c)
  | _ => false
  end.

Definition is_measurement (e : Event) : bool :=
  match e with EvMeasureTextWidth _ => true | _ => false end.

(** The page array has no hole, the current page is its last entry, and
    the texture source of the page at index [i] has identity [i]. *)
Definition pages_dense (this : DynamicBitmapFont) : Prop :=
  Z.of_nat (length (pages this)) = (_currentPageIndex this + 1)%Z
  /\ forall (i : nat) (o : option PageData),
       pages this !! i = Some o ->
       exists pd, o = Some pd /\ src_page (pg_texture pd) = Z.of_nat i.

(** Every texture of a glyph is cut from the texture source of a page of
    the font. *)
Definition textures_in_pages (this : DynamicBitmapFont) : Prop :=
  forall c cd t,
    chars this !! c = Some cd -> texture cd = Some t ->
    exists pd, array_get (pages this) (src_page (source t)) = Some pd
               /\ pg_texture pd = source t.

(** Every glyph record belongs to a current character and has the
    fields lines 211-223 give it; an empty character has no texture. *)
Definition records_ok (measureTextWidth : string -> Q) (this : DynamicBitmapFont) : Prop :=
  forall c cd,
    chars this !! c = Some cd ->
    In c (_currentChars this)
    /\ id cd = codePointAt0 c
    /\ xOffset cd = - _padding this
    /\ yOffset cd = - _padding this
    /\ xAdvance cd = advance_of measureTextWidth this c
    /\ (is_visible c = false -> texture cd = None).

(** The amount lines 301-302 compute for the pair [x], [y]. *)
Definition pair_kerning (measureTextWidth : string -> Q) (x y : string) : Q :=
  measureTextWidth (x ++ y)%string - (measureTextWidth x + measureTextWidth y).

(** The measure cache holds measured widths; no kerning entry is zero,
    and each is the amount of its pair, taken in one of its two orders. *)
Definition kerning_ok (measureTextWidth : string -> Q) (this : DynamicBitmapFont) : Prop :=
  (forall c v, _measureCache this !! c = Some v -> v = measureTextWidth c)
  /\ (forall a b v,
        kerning_of this a b = Some v ->
        ~ v == 0
        /\ (v = pair_kerning measureTextWidth a b \/ v = pair_kerning measureTextWidth b a)).

(** One canvas was taken per page, and no empty character was drawn. *)
Definition trace_ok (this : DynamicBitmapFont) : Prop :=
  count_getCanvas (trace this) = length (pages this)
  /\ forallb (fun e => negb (draws_empty e)) (trace this) = true.

(** What the constructor establishes and [ensureCharacters] keeps. *)
Definition life_ok (measureTextWidth : string -> Q) (this : DynamicBitmapFont) : Prop :=
  font_ok this
  /\ List.NoDup (_currentChars this)
  /\ pages_dense this
  /\ textures_in_pages this
  /\ records_ok measureTextWidth this
  /\ kerning_ok measureTextWidth this
  /\ trace_ok this.

(** [b] has the trace of [a] followed by width measurements only. *)
Definition measures_only (a b : DynamicBitmapFont) : Prop :=
  exists evs, trace b = trace a ++ evs /\ forallb is_measurement evs = true.

(** The invariant of the packing loop: the font's part of [life_ok], with
    [page] the active page of the loop. *)
Definition loop_ok (measureTextWidth : string -> Q) (this : DynamicBitmapFont)
    (page : PageData) : Prop :=
  pages_dense this
  /\ textures_in_pages this
  /\ records_ok measureTextWidth this
  /\ kerning_ok measureTextWidth this
  /\ trace_ok this
  /\ array_get (pages this) (_currentPageIndex this) = Some page.

(** The pages of [a] are the first pages of [b]. *)
Definition pages_grow (a b : DynamicBitmapFont) : Prop :=
  exists more, pages b = pages a ++ more.

Section FontLife.
Variable resolveCharacters : string -> list string.
Variable measureTextWidth : string -> Q.
Variable measureText : string -> TextStyle -> Canvas -> CanvasTextMetrics.
Variable getOptimalCanvasAndContext : Q -> Q -> Q -> Canvas.
Variable ImageSource_size : Canvas -> Q -> Q * Q.
Variable AbstractBitmapFont_baseRenderedFontSize : Q.
Variable AbstractBitmapFont_baseMeasurementFontSize : Q.

(** The fonts a program can hold: made by the constructor, then grown by
    calls of [ensureCharacters] that returned. *)
Inductive reachable : DynamicBitmapFont -> Prop :=
| reach_new (options : DynamicBitmapFontOptions) :
    reachable (new_DynamicBitmapFont AbstractBitmapFont_baseRenderedFontSize
                 AbstractBitmapFont_baseMeasurementFontSize options)
| reach_ensure (this this' : DynamicBitmapFont) (text : string) :
    reachable this ->
    ensureCharacters resolveCharacters measureTextWidth measureText
      getOptimalCanvasAndContext ImageSource_size text this = Some this' ->
    reachable this'.

End FontLife.

(** ** Drawing a glyph and releasing the font

    The drawing methods write to a canvas context; the calls they make
    are returned as a list, in order.  Assignments to properties of the
    context are calls too. *)

Inductive CtxCall :=
| CSave
| CRestore
| CScale (x y : Q)
| CSetLineWidth (w : Q)
| CSetLineJoin (join : string)
| CSetMiterLimit (limit : Q)
| CSetStrokeStyleToItself
| CBeginPath
| CMoveTo (x y : Q)
| CLineTo (x y : Q)
| CBezierCurveTo (x1 y1 x2 y2 x y : Q)
| CQuadraticCurveTo (x1 y1 x y : Q)
| CClosePath
| CStroke
| CFill
| CStrokeText (text : string) (x y : Q)
| CFillText (text : string) (x y : Q)
| CConsoleWarn.

(** A command of an OpenType path, as the drawing code reads it. *)
Record PathCommand := mkCommand {
  pc_type : string;
  pc_x : Q; pc_y : Q;
  pc_x1 : Q; pc_y1 : Q;
  pc_x2 : Q; pc_y2 : Q
}.

(** An OpenType path; [commands] may be missing. *)
Record OpenTypePath := mkPath { commands : option (list PathCommand) }.

(** An OpenType font: [getPath(char, x, y, fontSize, options)], which may
    throw ([None]). *)
Record OpenTypeFont := mkOpenTypeFont {
  getPath : string -> Q -> Q -> Q -> option OpenTypePath
}.

(** The part of [style._stroke] and [style._fill] the drawing methods
    read: [join] and [miterLimit] may be missing. *)
Record StrokeStyle := mkStroke {
  sk_width : Q;
  sk_join : option string;
  sk_miterLimit : option Q
}.

Record DrawStyle := mkDrawStyle { ds_stroke : option StrokeStyle; ds_fill : bool }.

(** The [switch] of lines 593-617. *)
Definition draw_command (command : PathCommand) : list CtxCall :=
  if String.eqb (pc_type command) "M" then [CMoveTo (pc_x command) (pc_y command)]
  else if String.eqb (pc_type command) "L" then [CLineTo (pc_x command) (pc_y command)]
  else if String.eqb (pc_type command) "C" then
    [CBezierCurveTo (pc_x1 command) (pc_y1 command) (pc_x2 command) (pc_y2 command)
       (pc_x command) (pc_y command)]
  else if String.eqb (pc_type command) "Q" then
    [CQuadraticCurveTo (pc_x1 command) (pc_y1 command) (pc_x command) (pc_y command)]
  else if String.eqb (pc_type command) "Z" then [CClosePath]
  else [].

(** [_drawOpenTypePath] *)
Definition _drawOpenTypePath (openTypePath : OpenTypePath) (shouldStroke shouldFill : bool)
  : list CtxCall :=
  match commands openTypePath with
  | None => []
  | Some [] => []
  | Some cmds =>
      [CBeginPath]
      ++ fold_left (fun calls command => calls ++ draw_command command) cmds []
      ++ (if shouldStroke then [CStroke] else [])
      ++ (if shouldFill then [CFill] else [])
  end.

(** [style._stroke && strokeThickness > 0] *)
Definition stroke_wanted (style : DrawStyle) (strokeThickness : Q) : bool :=
  match ds_stroke style with
  | Some _ => Qgtb strokeThickness 0
  | None => false
  end.

(** [_drawGlyphWithCanvas] *)
Definition _drawGlyphWithCanvas (char : string) (x y : Q) (style : DrawStyle)
    (strokeThickness : Q) : list CtxCall :=
  (if stroke_wanted style strokeThickness then [CStrokeText char x y] else [])
  ++ (if ds_fill style then [CFillText char x y] else []).

(** [a || d] on an optional string and on an optional number. *)
Definition or_string (a : option string) (d : string) : string :=
  match a with
  | Some s => if String.eqb s "" then d else s
  | None => d
  end.

Definition or_number (a : option Q) (d : Q) : Q :=
  match a with
  | Some v => if truthy v then v else d
  | None => d
  end.

(** The [try] block of [_drawGlyphWithOpenType] (lines 529-558): the
    calls it makes, and whether it ran to its end. *)
Definition outline_calls (char : string) (scaledX scaledY fontScale fontSize : Q)
    (style : DrawStyle) (openTypeFont : OpenTypeFont) (strokeThickness : Q)
  : list CtxCall * bool :=
  let stroked :=
    match ds_stroke style with
    | Some stroke =>
        if Qgtb strokeThickness 0 then
          match getPath openTypeFont char scaledX scaledY fontSize with
          | None => ([], false)
          | Some path =>
              ([CSetLineWidth (strokeThickness / fontScale);
                CSetLineJoin (or_string (sk_join stroke) "round");
                CSetMiterLimit (or_number (sk_miterLimit stroke) 10);
                CSetStrokeStyleToItself]
               ++ _drawOpenTypePath path true false, true)
          end
        else ([], true)
    | None => ([], true)
    end in
  if snd stroked then
    if ds_fill style then
      match getPath openTypeFont char scaledX scaledY fontSize with
      | None => (fst stroked, false)
      | Some path => (fst stroked ++ _drawOpenTypePath path false true, true)
      end
    else (fst stroked, true)
  else stroked.

(** [_drawGlyphWithOpenType] *)
Definition _drawGlyphWithOpenType (baseMeasurementFontSize : Q) (char : string) (x y fontScale : Q)
    (style : DrawStyle) (openTypeFont : OpenTypeFont) (strokeThickness : Q) : list CtxCall :=
  let fontSize := baseMeasurementFontSize in
  let scaledX := x / fontScale in
  let scaledY := y / fontScale in
  let tried :=
    outline_calls char scaledX scaledY fontScale fontSize style openTypeFont strokeThickness in
  [CSave; CScale fontScale fontScale]
  ++ fst tried
  ++ (if snd tried then [CRestore]
      else [CConsoleWarn; CRestore] ++ _drawGlyphWithCanvas char x y style strokeThickness).

(** [style.fontFamily]: one name or an array of names. *)
Inductive FontFamily :=
| FamilyName (name : string)
| FamilyList (names : list string).

(** The two characters line 480 removes: the single and the double
    quotation mark. *)
Definition is_quote (c : ascii) : bool :=
  (Ascii.eqb c (ascii_of_nat 39) || Ascii.eqb c (ascii_of_nat 34))%bool.

(** [family.replace(..., '')] with the global pattern of line 480. *)
Fixpoint strip_quotes (family : string) : string :=
  match family with
  | EmptyString => EmptyString
  | String c rest =>
      if is_quote c then strip_quotes rest else String c (strip_quotes rest)
  end.

(** What the asset cache holds under an OpenType key: an object whose
    [font] may be missing. *)
Record OpenTypeFontData := mkFontData { font : option OpenTypeFont }.

(** [_getOpenTypeFont]: the font, and whether a warning was logged.
    [fontFamily[0]] of an empty array is [undefined], whose [replace]
    throws; the [catch] logs and returns [null]. *)
Definition _getOpenTypeFont (Cache_get : string -> option OpenTypeFontData)
    (fontFamily : FontFamily) : option OpenTypeFont * bool :=
  let family :=
    match fontFamily with
    | FamilyName name => Some name
    | FamilyList names => List.head names
    end in
  match family with
  | None => (None, true)
  | Some family =>
      let cleanFamily := strip_quotes family in
      let cacheKey := (cleanFamily ++ "-opentype")%string in
      match Cache_get cacheKey with
      | Some data => (font data, false)
      | None => (None, false)
      end
  end.

(** What [_drawGlyph] reads of the metrics. *)
Record GlyphMetrics := mkGlyphMetrics { gm_text : string; gm_lineHeight : Q; gm_descent : Q }.

(** [_drawGlyph] *)
Definition _drawGlyph (Cache_get : string -> option OpenTypeFontData)
    (fontFamily : FontFamily) (baseMeasurementFontSize : Q)
    (metrics : GlyphMetrics) (x y fontScale : Q) (style : DrawStyle) : list CtxCall :=
  let char := gm_text metrics in
  let strokeThickness :=
    (match ds_stroke style with Some stroke => sk_width stroke | None => 0 end) * fontScale in
  let tx := x + strokeThickness / 2 in
  let ty := y - strokeThickness / 2 in
  let descent := gm_descent metrics * fontScale in
  let lineHeight := gm_lineHeight metrics * fontScale in
  let baselineY := ty + lineHeight - descent in
  let found := _getOpenTypeFont Cache_get fontFamily in
  (if snd found then [CConsoleWarn] else [])
  ++ match fst found with
     | Some openTypeFont =>
         _drawGlyphWithOpenType baseMeasurementFontSize char tx baselineY fontScale style
           openTypeFont strokeThickness
     | None => _drawGlyphWithCanvas char tx baselineY style strokeThickness
     end.

(** The calls [destroy] makes on its collaborators. *)
Inductive ReleaseCall :=
| RSuperDestroy
| RReturnCanvas (canvas : Canvas)
| RTextureDestroy (textureSource : TextureSource) (destroySource : bool).

(** The loop of lines 720-726: destructuring a hole of the array
    throws. *)
Fixpoint release_pages (ps : list (option PageData)) : list ReleaseCall * bool :=
  match ps with
  | [] => ([], true)
  | None :: _ => ([], false)
  | Some page :: rest =>
      let r := release_pages rest in
      (RReturnCanvas (canvasAndContext page) :: RTextureDestroy (pg_texture page) true :: fst r,
       snd r)
  end.

(** [destroy]: the calls made, and the page array afterwards ([None] is
    [null]); the array is replaced by [null] when the loop ran to its
    end. *)
Definition destroy (this : DynamicBitmapFont)
  : list ReleaseCall * option (list (option PageData)) :=
  let r := release_pages (pages this) in
  (RSuperDestroy :: fst r, if snd r then None else Some (pages this)).

Definition is_returnCanvas (c : ReleaseCall) : bool :=
  match c with RReturnCanvas _ => true | _ => false end.

Definition is_save (c : CtxCall) : bool := match c with CSave => true | _ => false end.
Definition is_restore (c : CtxCall) : bool := match c with CRestore => true | _ => false end.
Definition is_text (c : CtxCall) : bool :=
  match c with CStrokeText _ _ _ | CFillText _ _ _ => true | _ => false end.
Definition is_paint (c : CtxCall) : bool :=
  match c with CStroke | CFill => true | _ => false end.

Definition count_calls (p : CtxCall -> bool) (calls : list CtxCall) : nat :=
  length (List.filter p calls).

(** A call that is neither save, restore nor a text call. *)
Definition path_call (c : CtxCall) : bool :=
  negb (is_save c || is_restore c || is_text c).

(** ** The MSDF shader bit *)

Module Shader.
Local Open Scope R_scope.

Record vec4 := mkVec4 { r : R; g : R; b : R; a : R }.

(** The built-in functions both shading languages define by the same
    formulas. *)
Definition clamp (x lo hi : R) : R := Rmin (Rmax x lo) hi.

Definition smoothstep (edge0 edge1 x : R) : R :=
  let t := clamp ((x - edge0) / (edge1 - edge0)) 0 1 in
  t * t * (3 - 2 * t).

Definition mix (x y t : R) : R := x * (1 - t) + y * t.

Definition dot3 (x1 y1 z1 x2 y2 z2 : R) : R := x1 * x2 + y1 * y2 + z1 * z2.

Definition pow (x y : R) : R :=
  if Req_dec_T x 0 then 0 else Rpower x y.

(** [mSDFBit.fragment.header] (WGSL). *)
Definition calculateMSDFAlpha_wgsl (msdfColor shapeColor : vec4) (distance : R) : R :=
  let median :=
    r msdfColor + g msdfColor + b msdfColor
    - Rmin (r msdfColor) (Rmin (g msdfColor) (b msdfColor))
    - Rmax (r msdfColor) (Rmax (g msdfColor) (b msdfColor)) in
  let median := Rmin median (a msdfColor) in
  let screenPxDistance := distance * (median - 0.5) in
  let pixelRange := distance * 0.02 in
  let pixelRange := Rmax pixelRange 0.1 in
  let alpha := smoothstep (- pixelRange) pixelRange screenPxDistance in
  let alpha :=
    if Rlt_dec median 0.05 then 0
    else if Rlt_dec 0.95 median then 1
    else smoothstep 0.45 0.55 alpha in
  let luma := dot3 (r shapeColor) (g shapeColor) (b shapeColor) 0.299 0.587 0.114 in
  let gamma := mix 1 (1 / 1.8) luma in
  let coverage := pow (a shapeColor * alpha) gamma in
  coverage.

(** [mSDFBitGl.fragment.header] (GLSL). *)
Definition calculateMSDFAlpha_glsl (msdfColor shapeColor : vec4) (distance : R) : R :=
  let median :=
    r msdfColor + g msdfColor + b msdfColor
    - Rmin (r msdfColor) (Rmin (g msdfColor) (b msdfColor))
    - Rmax (r msdfColor) (Rmax (g msdfColor) (b msdfColor)) in
  let median := Rmin median (a msdfColor) in
  let screenPxDistance := distance * (median - 0.5) in
  let pixelRange := distance * 0.02 in
  let pixelRange := Rmax pixelRange 0.1 in
  let alpha := smoothstep (- pixelRange) pixelRange screenPxDistance in
  let alpha :=
    if Rlt_dec median 0.05 then 0
    else if Rlt_dec 0.95 median then 1
    else smoothstep 0.45 0.55 alpha in
  let luma := dot3 (r shapeColor) (g shapeColor) (b shapeColor) 0.299 0.587 0.114 in
  let gamma := mix 1 (1 / 1.8) luma in
  let coverage := pow (a shapeColor * alpha) gamma in
  coverage.
End Shader.

(** The colour channels of a shape colour all lie in [0, 1]. *)
Definition unit_color (c : Shader.vec4) : Prop :=
  (0 <= Shader.r c <= 1 /\ 0 <= Shader.g c <= 1
   /\ 0 <= Shader.b c <= 1 /\ 0 <= Shader.a c <= 1)%R.

(** At least two of the three distance channels are below [t]. *)
Definition two_below (t : R) (c : Shader.vec4) : Prop :=
  ((Shader.r c < t /\ Shader.g c < t) \/ (Shader.r c < t /\ Shader.b c < t)
   \/ (Shader.g c < t /\ Shader.b c < t))%R.

(** At least two of the three distance channels are above [t]. *)
Definition two_above (t : R) (c : Shader.vec4) : Prop :=
  ((t < Shader.r c /\ t < Shader.g c) \/ (t < Shader.r c /\ t < Shader.b c)
   \/ (t < Shader.g c /\ t < Shader.b c))%R.

(** ** Concrete fonts

    A small world to run the font in: one character per position of the
    text, canvases of exactly the requested size, texture sources of the
    canvas size divided by their resolution, and both base font sizes at
    100. *)
Module Demo.

(** Modelled from the spec: resolveCharacters (utils/resolveCharacters)
    is not among the sources; the spec has it decompose the text into
    the sequence of its individual characters. *)
Fixpoint resolveCharacters (text : string) : list string :=
  match text with
  | EmptyString => []
  | String c rest => String c EmptyString :: resolveCharacters rest
  end.

Definition getOptimalCanvasAndContext (minWidth minHeight resolution : Q) : Canvas :=
  mkCanvas (minWidth * resolution) (minHeight * resolution).

Definition ImageSource_size (canvas : Canvas) (resolution : Q) : Q * Q :=
  (cv_width canvas / resolution, cv_height canvas / resolution).

Definition plain (size : Q) : TextStyle := mkTextStyle size "normal" None None.

Definition make (options : DynamicBitmapFontOptions) : DynamicBitmapFont :=
  new_DynamicBitmapFont 100 100 options.

Definition metrics_of (height : string -> Q) (char : string) (_ : TextStyle) (_ : Canvas)
  : CanvasTextMetrics :=
  mkMetrics char (height char) (height char).

Definition run (width : string -> Q) (height : string -> Q) (text : string)
    (this : DynamicBitmapFont) : option DynamicBitmapFont :=
  ensureCharacters resolveCharacters width (metrics_of height)
    getOptimalCanvasAndContext ImageSource_size text this.

(** Then-composition of calls that may throw. *)
Definition andThen (o : option DynamicBitmapFont)
    (k : DynamicBitmapFont -> option DynamicBitmapFont) : option DynamicBitmapFont :=
  match o with Some f => k f | None => None end.

(** Kerning world: every character is 7 wide, "AV" is 12 and "VA" is
    13 (the two orders kern differently), every other pair is the sum
    of its characters. *)
Definition kern_width (text : string) : Q :=
  if String.eqb text "AV" then 12
  else if String.eqb text "VA" then 13
  else inject_Z (7 * Z.of_nat (String.length text)).

Definition kern_options (skip : option bool) : DynamicBitmapFontOptions :=
  mkOptions (plain 100) skip None None false None None.

(** Zero-width world: "z" measures 0, every other text 7 per
    character. *)
Definition zero_width (text : string) : Q :=
  if String.eqb text "z" then 0
  else inject_Z (7 * Z.of_nat (String.length text)).

(** Packing world: pages of 20 by 20 (or 20 by 40), no padding, every
    character 10 wide. *)
Definition pack_options (size : Q) : DynamicBitmapFontOptions :=
  mkOptions (plain 100) None None (Some 0) false (Some size) None.

Definition ten (_ : string) : Q := 10.

(** Heights for the containment run: "." is 3 high, the letters 12. *)
Definition dot_height (char : string) : Q :=
  if String.eqb char "." then 3 else 12.

(** Heights for the whitespace run: the space is 12 high, the letters
    10. *)
Definition space_height (char : string) : Q :=
  if String.eqb char " " then 12 else 10.

(** Stroke world: a stroke of 10, the font size overridden. *)
Definition stroke_options (size : Q) : DynamicBitmapFontOptions :=
  mkOptions (mkTextStyle size "normal" (Some 10) None) None None None true None None.

Definition seventy (_ : string) : Q := 70.

(** Every character 10 high. *)
Definition square_height (_ : string) : Q := 10.

(** The packing loop alone, from the state in which [ensureCharacters]
    enters it on a new font. *)
Definition start (options : DynamicBitmapFontOptions) : DynamicBitmapFont * Locals :=
  let st := _nextPage getOptimalCanvasAndContext ImageSource_size (make options) in
  (fst st, mkLocals (snd st) 0 0 0 false).

Definition pack (width height : string -> Q) (side : Q) (cs : list string)
    (st : DynamicBitmapFont * Locals) : DynamicBitmapFont * Locals :=
  fold_left
    (pack_char width (metrics_of height) getOptimalCanvasAndContext ImageSource_size side side)
    cs st.

(** The fonts a program can hold in the kerning world. *)
Definition kern_reachable : DynamicBitmapFont -> Prop :=
  reachable resolveCharacters kern_width (metrics_of square_height)
    getOptimalCanvasAndContext ImageSource_size 100 100.

(** The kerning font: kerning runs (skipKerning is true, as line 263 has
    it), and "A V" is asked of it. *)
Definition kern_font : DynamicBitmapFont := make (kern_options (Some true)).

Definition kern_run (text : string) (this : DynamicBitmapFont) : option DynamicBitmapFont :=
  run kern_width square_height text this.

(** An OpenType font whose [getPath] always throws. *)
Definition broken_font : OpenTypeFont := mkOpenTypeFont (fun _ _ _ _ => None).

End Demo.

(** * Properties *)

(** ** Numbers *)

Lemma Qgtb_true (a b : Q) : Qgtb a b = true <-> b < a.
Proof.
  unfold Qgtb. rewrite negb_true_iff. split; intros H.
  - apply Qnot_le_lt. intros Hle. apply Qle_bool_iff in Hle. congruence.
  - destruct (Qle_bool a b) eqn:E; [|reflexivity].
    apply Qle_bool_iff in E. exfalso. apply (Qlt_not_le _ _ H E).
Qed.

Lemma Qgtb_false (a b : Q) : Qgtb a b = false <-> a <= b.
Proof.
  unfold Qgtb. rewrite negb_false_iff. apply Qle_bool_iff.
Qed.

Lemma Qdiv_cancel_surface (x w s : Q) : ~ w == 0 -> ~ s == 0 -> x / (w * s) * w == x / s.
Proof. intros Hw Hs. field. split; assumption. Qed.

(** ** The shader bit *)

(** C10: the WGSL and the GLSL header of calculateMSDFAlpha compute the
    same function of (msdfColor, shapeColor, distance) over the reals. *)
Theorem C10_wgsl_glsl_agree (msdfColor shapeColor : Shader.vec4) (distance : R) :
  Shader.calculateMSDFAlpha_wgsl msdfColor shapeColor distance
  = Shader.calculateMSDFAlpha_glsl msdfColor shapeColor distance.
Proof.
  unfold Shader.calculateMSDFAlpha_wgsl, Shader.calculateMSDFAlpha_glsl.
  destruct msdfColor as [mr mg mb ma], shapeColor as [sr sg sb sa]; simpl.
  destruct (Rlt_dec _ _); [reflexivity|].
  destruct (Rlt_dec _ _); reflexivity.
Qed.

(** ** The frame of a placed glyph *)



(** ** Runs of concrete fonts *)

(** C1: with skipKerning false the kerning pass is not run (no pair is
    measured, no kerning entry is written, although "AV" kerns); with
    skipKerning true it is run and writes entries.  The guard of line 263
    is the negation of the option's meaning. *)
Theorem C1_kerning_guard_inverted :
  (exists f,
      Demo.run Demo.kern_width Demo.square_height "AV" (Demo.make (Demo.kern_options (Some false)))
      = Some f
      /\ kerning_of f "A" "V" = None
      /\ kerning_of f "V" "A" = None
      /\ count_measureTextWidth "AV" (trace f) = 0%nat)
  /\ (exists f,
      Demo.run Demo.kern_width Demo.square_height "AV" (Demo.make (Demo.kern_options (Some true)))
      = Some f
      /\ kerning_of f "A" "V" = Some (-1)
      /\ kerning_of f "V" "A" = Some (-1)
      /\ count_measureTextWidth "AV" (trace f) = 2%nat).
Proof.
  split; eexists; (split; [vm_compute; reflexivity|]); repeat split; vm_compute; reflexivity.
Qed.

(** C4: "A" and "V" enter in one batch, "AV" kerns by -2 and "VA" by -1.
    The pass of "A" writes chars[A].kerning[V] = -2; the pass of "V",
    in the same call of _applyKerning, overwrites it with -1. *)
Theorem C4_kerning_entry_overwritten :
  exists f0 f1 f2,
    Demo.run Demo.kern_width Demo.square_height "AV" (Demo.make (Demo.kern_options None)) = Some f0
    /\ kerning_first Demo.kern_width "A" f0 = Some f1
    /\ kerning_first Demo.kern_width "V" f1 = Some f2
    /\ _applyKerning Demo.kern_width ["A"; "V"]%string f0 = Some f2
    /\ kerning_of f1 "A" "V" = Some (-2)
    /\ kerning_of f2 "A" "V" = Some (-1).
Proof.
  do 3 eexists.
  split; [vm_compute; reflexivity|].
  split; [vm_compute; reflexivity|].
  split; [vm_compute; reflexivity|].
  repeat split; vm_compute; reflexivity.
Qed.

(** C5: "z" measures 0.  After the packer measured it once, one kerning
    pass over "z" measures its width twice and caches 0; the kerning
    pass of a later character measures it again, while the width of "a"
    (7) is measured once by its packer and once by its kerning pass. *)
Theorem C5_zero_width_measured_again :
  exists f0 f1 f2,
    Demo.run Demo.zero_width Demo.square_height "z" (Demo.make (Demo.kern_options None)) = Some f0
    /\ count_measureTextWidth "z" (trace f0) = 1%nat
    /\ _applyKerning Demo.zero_width ["z"%string] f0 = Some f1
    /\ count_measureTextWidth "z" (trace f1) = 3%nat
    /\ _measureCache f1 !! "z"%string = Some 0
    /\ Demo.andThen
         (Demo.run Demo.zero_width Demo.square_height "z"
            (Demo.make (Demo.kern_options (Some true))))
         (Demo.run Demo.zero_width Demo.square_height "a") = Some f2
    /\ count_measureTextWidth "z" (trace f2) = 4%nat
    /\ count_measureTextWidth "a" (trace f2) = 2%nat.
Proof.
  do 3 eexists.
  split; [vm_compute; reflexivity|].
  split; [vm_compute; reflexivity|].
  split; [vm_compute; reflexivity|].
  split; [vm_compute; reflexivity|].
  split; [vm_compute; reflexivity|].
  split; [vm_compute; reflexivity|].
  split; vm_compute; reflexivity.
Qed.

(** C7: on pages of 20 by 20 with glyphs 10 wide, "a" and "b" 12 high
    fill the first shelf, "." (3 high) opens the second shelf at y = 12,
    and "d" (12 high) joins that shelf at (10, 12) without a height test:
    its box ends at y = 24, below the page, though its padded width 10
    fits the page width 20. *)
Theorem C7_tall_glyph_crosses_page_bottom :
  exists f r,
    Demo.run Demo.ten Demo.dot_height "ab.d" (Demo.make (Demo.pack_options 20)) = Some f
    /\ frame_of f "d" = Some r
    /\ page_of f "d" = Some 0%Z
    /\ length (pages f) = 1%nat
    /\ r_x r + r_width r <= 20
    /\ 20 < r_y r + r_height r
    /\ paddedWidth_of (Demo.make (Demo.pack_options 20)) (Demo.ten "d") <= 20
    /\ paddedHeight_of (Demo.make (Demo.pack_options 20)) (Demo.dot_height "d") <= 20.
Proof.
  do 2 eexists.
  split; [vm_compute; reflexivity|].
  split; [vm_compute; reflexivity|].
  split; [vm_compute; reflexivity|].
  split; [vm_compute; reflexivity|].
  repeat split; vm_compute; congruence.
Qed.

(** C3: on pages of 30 by 30 with glyphs 10 wide and 10 high and a space
    12 high, the space after "abc" finds the shelf full, opens a new
    shelf and leaves 12 in maxCharHeight, which was 10; it gets
    no texture and no draw call.  The shelf of "def" is then 12 high, so
    "g" goes to a second page; without the space "g" is at y = 20 of the
    first page. *)
Theorem C3_space_raises_shelf_height :
  let st := Demo.pack Demo.ten Demo.space_height 30 ["a"; "b"; "c"]%string
              (Demo.start (Demo.pack_options 30)) in
  let st' := Demo.pack Demo.ten Demo.space_height 30 [" "%string] st in
  maxCharHeight (snd st) == 10
  /\ maxCharHeight (snd st') == 12
  /\ frame_of (fst st') " " = None
  /\ List.filter (is_draw_of " ") (trace (fst st')) = []
  /\ (exists f,
        Demo.run Demo.ten Demo.space_height "abc defg" (Demo.make (Demo.pack_options 30)) = Some f
        /\ length (pages f) = 2%nat /\ page_of f "g" = Some 1%Z)
  /\ (exists f,
        Demo.run Demo.ten Demo.space_height "abcdefg" (Demo.make (Demo.pack_options 30)) = Some f
        /\ length (pages f) = 1%nat /\ page_of f "g" = Some 0%Z).
Proof.
  cbv zeta.
  split; [vm_compute; reflexivity|].
  split; [vm_compute; reflexivity|].
  split; [vm_compute; reflexivity|].
  split; [vm_compute; reflexivity|].
  split; eexists; (split; [vm_compute; reflexivity|]); split; vm_compute; reflexivity.
Qed.

(** C8, refuted as stated: with overrideSize and a stroke of 10, a font
    requested at size 20 records for "A" (70 wide) the advance 20, not
    70 - 10 - 0, and a font requested at size 50 records 50: the advance
    depends on the requested size. *)
Lemma C8_advance_depends_on_requested_size :
  exists f20 f50 a20 a50,
    Demo.run Demo.seventy Demo.square_height "A" (Demo.make (Demo.stroke_options 20)) = Some f20
    /\ Demo.run Demo.seventy Demo.square_height "A" (Demo.make (Demo.stroke_options 50)) = Some f50
    /\ xAdvance_of f20 "A" = Some a20
    /\ xAdvance_of f50 "A" = Some a50
    /\ _stroke (o_style (Demo.stroke_options 20)) = Some 10
    /\ dropShadow (o_style (Demo.stroke_options 20)) = None
    /\ ~ a20 == Demo.seventy "A" - 10 - 0
    /\ ~ a20 == a50.
Proof.
  do 4 eexists.
  split; [vm_compute; reflexivity|].
  split; [vm_compute; reflexivity|].
  split; [vm_compute; reflexivity|].
  split; [vm_compute; reflexivity|].
  split; [reflexivity|].
  split; [reflexivity|].
  split; vm_compute; discriminate.
Qed.

(** ** Arrays *)

Lemma includes_In (self : list string) (x : string) : includes self x = true <-> In x self.
Proof.
  unfold includes. rewrite existsb_exists. split.
  - intros [y [Hy He]]. apply String.eqb_eq in He. subst. assumption.
  - intros H. exists x. split; [assumption | apply String.eqb_refl].
Qed.

Lemma indexOf_from_hit (k : Z) (self : list string) (x : string) :
  In x self -> (k <= indexOf_from k self x < k + Z.of_nat (length self))%Z.
Proof.
  revert k. induction self as [|y rest IH]; intros k Hin; [destruct Hin|].
  cbn [indexOf_from length]. destruct (String.eqb y x) eqn:E.
  - lia.
  - destruct Hin as [->|Hin]; [rewrite String.eqb_refl in E; discriminate|].
    specialize (IH (k + 1)%Z Hin). lia.
Qed.

Lemma indexOf_from_skip (k : Z) (prefix suffix : list string) (x : string) :
  ~ In x prefix ->
  indexOf_from k (prefix ++ suffix) x = indexOf_from (k + Z.of_nat (length prefix)) suffix x.
Proof.
  revert k. induction prefix as [|y rest IH]; intros k Hnin.
  - cbn. f_equal. lia.
  - cbn [app indexOf_from length]. destruct (String.eqb y x) eqn:E.
    + apply String.eqb_eq in E. subst. exfalso. apply Hnin. left. reflexivity.
    + rewrite IH by (intros H; apply Hnin; right; assumption). f_equal. lia.
Qed.

(** The test of the second filter of line 122, at the element that
    follows [prefix]. *)
Lemma first_occurrence_test (prefix rest : list string) (x : string) :
  (indexOf (prefix ++ x :: rest) x =? Z.of_nat (length prefix))%Z
  = negb (includes prefix x).
Proof.
  unfold indexOf. destruct (includes prefix x) eqn:E.
  - apply includes_In in E.
    assert (H : In x (prefix ++ x :: rest)) by (apply in_or_app; left; assumption).
    cbn. apply Z.eqb_neq.
    assert (Hp := indexOf_from_hit 0 prefix x E).
    assert (E' : indexOf_from 0 (prefix ++ x :: rest) x = indexOf_from 0 prefix x).
    { clear -E. generalize 0%Z. induction prefix as [|y p IH]; intros k; [destruct E|].
      cbn [app indexOf_from]. destruct (String.eqb y x) eqn:Eq; [reflexivity|].
      destruct E as [->|E]; [rewrite String.eqb_refl in Eq; discriminate|].
      apply IH. assumption. }
    rewrite E'. lia.
  - assert (Hnin : ~ In x prefix).
    { intros H. apply includes_In in H. congruence. }
    rewrite indexOf_from_skip by assumption.
    cbn. rewrite String.eqb_refl. apply Z.eqb_eq. lia.
Qed.

Lemma dedupe_from_keeps (x : string) (suffix prefix : list string) :
  In x suffix -> ~ In x prefix ->
  In x (filter_from (fun c i => (indexOf (prefix ++ suffix) c =? i)%Z)
          (Z.of_nat (length prefix)) suffix).
Proof.
  revert prefix. induction suffix as [|y rest IH]; intros prefix Hin Hnin; [destruct Hin|].
  cbn [filter_from]. rewrite first_occurrence_test.
  destruct (String.eqb y x) eqn:E.
  - apply String.eqb_eq in E. subst y.
    destruct (includes prefix x) eqn:Ei.
    + apply includes_In in Ei. contradiction.
    + left. reflexivity.
  - destruct Hin as [->|Hin]; [rewrite String.eqb_refl in E; discriminate|].
    assert (Hx : In x (filter_from (fun c i => (indexOf ((prefix ++ [y]) ++ rest) c =? i)%Z)
                         (Z.of_nat (length (prefix ++ [y]))) rest)).
    { apply IH; [assumption|]. intros H. apply in_app_or in H.
      destruct H as [H|[H|[]]]; [contradiction|].
      subst. rewrite String.eqb_refl in E. discriminate. }
    rewrite <- app_assoc in Hx. cbn [app] in Hx.
    rewrite length_app in Hx. cbn [length] in Hx.
    replace (Z.of_nat (length prefix + 1)) with (Z.of_nat (length prefix) + 1)%Z in Hx by lia.
    destruct (negb (includes prefix y)); [right|]; exact Hx.
Qed.

Lemma dedupe_from_NoDup (suffix prefix : list string) :
  List.NoDup suffix -> (forall x, In x suffix -> ~ In x prefix) ->
  filter_from (fun c i => (indexOf (prefix ++ suffix) c =? i)%Z)
    (Z.of_nat (length prefix)) suffix = suffix.
Proof.
  revert prefix. induction suffix as [|y rest IH]; intros prefix Hnd Hdis; [reflexivity|].
  cbn [filter_from]. rewrite first_occurrence_test.
  apply NoDup_cons_iff in Hnd. destruct Hnd as [Hy Hnd].
  assert (Ei : includes prefix y = false).
  { destruct (includes prefix y) eqn:Ei; [|reflexivity].
    apply includes_In in Ei. exfalso. apply (Hdis y); [left; reflexivity | assumption]. }
  rewrite Ei. cbn [negb]. f_equal.
  specialize (IH (prefix ++ [y]) Hnd).
  rewrite <- app_assoc in IH. cbn [app] in IH.
  rewrite length_app in IH. cbn [length] in IH.
  replace (Z.of_nat (length prefix + 1)) with (Z.of_nat (length prefix) + 1)%Z in IH by lia.
  apply IH. intros x Hx H. apply in_app_or in H. destruct H as [H|[H|[]]].
  - apply (Hdis x); [right; assumption | assumption].
  - subst. contradiction.
Qed.

Lemma filter_from_In {A} (p : A -> Z -> bool) (i : Z) (l : list A) (x : A) :
  In x (filter_from p i l) -> In x l.
Proof.
  revert i. induction l as [|y rest IH]; intros i H; [assumption|].
  cbn [filter_from] in H. destruct (p y i).
  - destruct H as [->|H]; [left; reflexivity | right; eapply IH; eassumption].
  - right. eapply IH; eassumption.
Qed.

Lemma filter_all_false {A} (p : A -> bool) (l : list A) :
  (forall x, In x l -> p x = false) -> List.filter p l = [].
Proof.
  induction l as [|y rest IH]; intros H; [reflexivity|].
  cbn [List.filter]. rewrite (H y) by (left; reflexivity).
  apply IH. intros x Hx. apply H. right. assumption.
Qed.

Lemma array_get_set {A} (a : list (option A)) (i : Z) (v : A) :
  (0 <= i)%Z -> array_get (array_set a i v) i = Some v.
Proof.
  intros Hi. unfold array_get, array_set.
  destruct (i <? 0)%Z eqn:E; [apply Z.ltb_lt in E; lia|].
  destruct (Z.to_nat i <? length a)%nat eqn:El.
  - apply Nat.ltb_lt in El. rewrite list_lookup_insert_eq by assumption. reflexivity.
  - apply Nat.ltb_ge in El.
    rewrite lookup_app_r by assumption.
    rewrite lookup_app_r by (rewrite length_replicate; lia).
    rewrite length_replicate.
    replace (Z.to_nat i - length a - (Z.to_nat i - length a))%nat with 0%nat by lia.
    reflexivity.
Qed.

(** ** What the methods leave unchanged *)

Lemma same_setup_refl (a : DynamicBitmapFont) : same_setup a a.
Proof. unfold same_setup. repeat split. Qed.

Lemma same_setup_trans (a b c : DynamicBitmapFont) :
  same_setup a b -> same_setup b c -> same_setup a c.
Proof.
  unfold same_setup. intros H1 H2.
  destruct H1 as (?&?&?&?&?&?&?&?&?), H2 as (?&?&?&?&?&?&?&?&?).
  repeat split; congruence.
Qed.

Lemma kerning_only_refl (a : DynamicBitmapFont) : kerning_only a a.
Proof. unfold kerning_only. repeat split. Qed.

Lemma kerning_only_trans (a b c : DynamicBitmapFont) :
  kerning_only a b -> kerning_only b c -> kerning_only a c.
Proof.
  unfold kerning_only. intros (S1&?&?&?&?&?) (S2&?&?&?&?&?).
  split; [eapply same_setup_trans; eassumption|].
  repeat split; congruence.
Qed.

Lemma kerning_only_lookup (a b : DynamicBitmapFont) (c : string) :
  kerning_only a b -> strip_kerning <$> (chars b !! c) = strip_kerning <$> (chars a !! c).
Proof.
  intros (_&_&_&_&_&H). rewrite <- !lookup_fmap. rewrite H. reflexivity.
Qed.

Lemma kerning_only_is_Some (a b : DynamicBitmapFont) (c : string) :
  kerning_only a b -> is_Some (chars a !! c) -> is_Some (chars b !! c).
Proof.
  intros H [cd Hcd]. pose proof (kerning_only_lookup a b c H) as E.
  rewrite Hcd in E. destruct (chars b !! c); [eexists; reflexivity | discriminate].
Qed.

Lemma kerning_only_frame_of (a b : DynamicBitmapFont) (c : string) :
  kerning_only a b -> frame_of b c = frame_of a c.
Proof.
  intros H. pose proof (kerning_only_lookup a b c H) as E. unfold frame_of.
  destruct (chars b !! c) as [x|], (chars a !! c) as [y|]; try discriminate; [|reflexivity].
  cbn in E. injection E as _ _ _ _ E. rewrite E. reflexivity.
Qed.

Lemma kerning_only_page_of (a b : DynamicBitmapFont) (c : string) :
  kerning_only a b -> page_of b c = page_of a c.
Proof.
  intros H. pose proof (kerning_only_lookup a b c H) as E. unfold page_of.
  destruct (chars b !! c) as [x|], (chars a !! c) as [y|]; try discriminate; [|reflexivity].
  cbn in E. injection E as _ _ _ _ E. rewrite E. reflexivity.
Qed.

Lemma kerning_only_xAdvance_of (a b : DynamicBitmapFont) (c : string) :
  kerning_only a b -> xAdvance_of b c = xAdvance_of a c.
Proof.
  intros H. pose proof (kerning_only_lookup a b c H) as E. unfold xAdvance_of.
  destruct (chars b !! c) as [x|], (chars a !! c) as [y|]; try discriminate; [|reflexivity].
  cbn in E. injection E as _ _ _ E _. rewrite E. reflexivity.
Qed.

(** A loop whose body keeps an invariant and does not throw under it
    runs to its end. *)
Lemma for_each_invariant {A S} (Inv : S -> Prop) (body : A -> S -> option S) (l : list A) :
  (forall x s, In x l -> Inv s -> exists s', body x s = Some s' /\ Inv s') ->
  forall s, Inv s -> exists s', for_each body l s = Some s' /\ Inv s'.
Proof.
  induction l as [|x rest IH]; intros Hbody s Hs.
  - exists s. split; [reflexivity | assumption].
  - cbn [for_each].
    destruct (Hbody x s (or_introl eq_refl) Hs) as [s1 [E1 H1]]. rewrite E1.
    apply IH; [|assumption].
    intros y t Hy Ht. apply Hbody; [right; assumption | assumption].
Qed.

Section Kerning.
Variable measureTextWidth : string -> Q.

Lemma measureCached_kerning_only (ch : string) (this : DynamicBitmapFont) :
  kerning_only this (snd (measureCached measureTextWidth ch this)).
Proof.
  unfold measureCached.
  destruct (_measureCache this !! ch) as [c|]; [destruct (truthy c)|];
    cbn [snd]; unfold kerning_only, same_setup; cbn; repeat split.
Qed.

Lemma set_kerning_kerning_only (a b : string) (amount : Q) (this : DynamicBitmapFont) :
  is_Some (chars this !! a) ->
  exists this', set_kerning a b amount this = Some this' /\ kerning_only this this'.
Proof.
  intros [cd Hcd]. unfold set_kerning. rewrite Hcd.
  eexists. split; [reflexivity|].
  unfold kerning_only, same_setup; cbn. repeat split.
  rewrite fmap_insert. apply insert_id.
  rewrite lookup_fmap, Hcd. reflexivity.
Qed.

Lemma kerning_pair_kerning_only (first second : string) (this : DynamicBitmapFont) :
  is_Some (chars this !! first) -> is_Some (chars this !! second) ->
  exists this',
    kerning_pair measureTextWidth first second this = Some this' /\ kerning_only this this'.
Proof.
  intros Hf Hs. unfold kerning_pair.
  pose proof (measureCached_kerning_only first this) as K1.
  destruct (measureCached measureTextWidth first this) as [c1 this1]. cbn [snd] in K1.
  pose proof (measureCached_kerning_only second this1) as K2.
  destruct (measureCached measureTextWidth second this1) as [c2 this2]. cbn [snd] in K2.
  pose proof (kerning_only_trans _ _ _ K1 K2) as K12.
  set (this3 := emit (EvMeasureTextWidth (first ++ second)) this2).
  assert (K3 : kerning_only this this3).
  { eapply kerning_only_trans; [exact K12|].
    unfold this3, kerning_only, same_setup; cbn; repeat split. }
  assert (H4 : exists this4,
             (if truthy (measureTextWidth (first ++ second) - (c1 + c2))
              then set_kerning first second
                     (measureTextWidth (first ++ second) - (c1 + c2)) this3
              else Some this3) = Some this4 /\ kerning_only this this4).
  { destruct (truthy _).
    - destruct (set_kerning_kerning_only first second
                  (measureTextWidth (first ++ second) - (c1 + c2)) this3) as [t [E K]].
      + eapply kerning_only_is_Some; eassumption.
      + exists t. split; [assumption | eapply kerning_only_trans; eassumption].
    - exists this3. split; [reflexivity | assumption]. }
  destruct H4 as [this4 [E4 K4]]. rewrite E4.
  set (this5 := emit (EvMeasureTextWidth (first ++ second)) this4).
  assert (K5 : kerning_only this this5).
  { eapply kerning_only_trans; [exact K4|].
    unfold this5, kerning_only, same_setup; cbn; repeat split. }
  destruct (truthy _).
  - destruct (set_kerning_kerning_only second first
                (measureTextWidth (first ++ second) - (c1 + c2)) this5) as [t [E K]].
    + eapply kerning_only_is_Some; eassumption.
    + exists t. split; [assumption | eapply kerning_only_trans; eassumption].
  - exists this5. split; [reflexivity | assumption].
Qed.

Lemma kerning_first_kerning_only (first : string) (this : DynamicBitmapFont) :
  is_Some (chars this !! first) ->
  (forall c, In c (_currentChars this) -> is_Some (chars this !! c)) ->
  exists this',
    kerning_first measureTextWidth first this = Some this' /\ kerning_only this this'.
Proof.
  intros Hf Hall. unfold kerning_first.
  apply (for_each_invariant (kerning_only this)); [|apply kerning_only_refl].
  intros second s Hin Hs.
  destruct (kerning_pair_kerning_only first second s) as [s' [E K]].
  - eapply kerning_only_is_Some; eassumption.
  - eapply kerning_only_is_Some; [eassumption | apply Hall; assumption].
  - exists s'. split; [assumption | eapply kerning_only_trans; eassumption].
Qed.

(** The kerning pass does not throw on a font whose new and current
    characters all have their records, and changes nothing but kerning
    tables, the measure cache and the trace. *)
Lemma applyKerning_kerning_only (newChars : list string) (this : DynamicBitmapFont) :
  (forall c, In c newChars -> is_Some (chars this !! c)) ->
  (forall c, In c (_currentChars this) -> is_Some (chars this !! c)) ->
  exists this',
    _applyKerning measureTextWidth newChars this = Some this' /\ kerning_only this this'.
Proof.
  intros Hnew Hall. unfold _applyKerning.
  apply (for_each_invariant (kerning_only this)); [|apply kerning_only_refl].
  intros first s Hin Hs.
  destruct (kerning_first_kerning_only first s) as [s' [E K]].
  - eapply kerning_only_is_Some; [eassumption | apply Hnew; assumption].
  - intros c Hc. eapply kerning_only_is_Some; [eassumption|].
    apply Hall. destruct Hs as (S&_). destruct S as (_&_&_&_&_&_&_&_&Hcc).
    rewrite <- Hcc. assumption.
  - exists s'. split; [assumption | eapply kerning_only_trans; eassumption].
Qed.
End Kerning.

(** ** The packing loop *)

Section Packing.
Variable measureTextWidth : string -> Q.
Variable measureText : string -> TextStyle -> Canvas -> CanvasTextMetrics.
Variable getOptimalCanvasAndContext : Q -> Q -> Q -> Canvas.
Variable ImageSource_size : Canvas -> Q -> Q * Q.

Local Abbreviation nextPage := (_nextPage getOptimalCanvasAndContext ImageSource_size).
Local Abbreviation place' := (place getOptimalCanvasAndContext ImageSource_size).
Local Abbreviation pack_char' :=
  (pack_char measureTextWidth measureText getOptimalCanvasAndContext ImageSource_size).

Lemma nextPage_spec (this : DynamicBitmapFont) :
  same_setup this (fst (nextPage this))
  /\ chars (fst (nextPage this)) = chars this
  /\ _currentPageIndex (fst (nextPage this)) = (_currentPageIndex this + 1)%Z
  /\ pages (fst (nextPage this))
     = array_set (pages this) (_currentPageIndex this + 1)%Z (snd (nextPage this))
  /\ canvasAndContext (snd (nextPage this))
     = getOptimalCanvasAndContext (_textureSize this) (_textureSize this) (resolution this)
  /\ src_page (pg_texture (snd (nextPage this))) = (_currentPageIndex this + 1)%Z.
Proof.
  unfold _nextPage. cbn.
  destruct (ImageSource_size _ _) as [w h]. cbn.
  unfold same_setup. cbn. repeat split.
Qed.

Lemma nextPage_cursor (this : DynamicBitmapFont) :
  _currentX (fst (nextPage this)) = _currentX this
  /\ _currentY (fst (nextPage this)) = _currentY this.
Proof.
  unfold _nextPage. cbn. destruct (ImageSource_size _ _) as [w h]. cbn. split; reflexivity.
Qed.

Lemma nextPage_page_ok (this : DynamicBitmapFont) :
  (-1 <= _currentPageIndex this)%Z -> page_ok (fst (nextPage this)).
Proof.
  intros Hi. destruct (nextPage_spec this) as (_&_&Ei&Ep&_). unfold page_ok.
  rewrite Ei, Ep. split; [lia|].
  rewrite array_get_set by lia. eexists. reflexivity.
Qed.

Lemma place_spec (W H pw ph mch : Q) (this : DynamicBitmapFont) (l : Locals) :
  same_setup this (fst (place' W H pw ph mch this l))
  /\ chars (fst (place' W H pw ph mch this l)) = chars this
  /\ skipTexture (snd (place' W H pw ph mch this l)) = skipTexture l
  /\ (page_ok this -> page_ok (fst (place' W H pw ph mch this l))).
Proof.
  unfold place.
  destruct (Qgtb (currentX l + pw) W); [destruct (Qgtb (currentY l + mch + ph) H)|].
  - set (this1 := emit _ this).
    destruct (nextPage_spec this1) as (S&C&_).
    pose proof (nextPage_page_ok this1) as P.
    destruct (nextPage this1) as [this2 page]. cbn [fst snd] in *.
    split; [|split; [|split]].
    + eapply same_setup_trans; [|exact S]. unfold this1, same_setup; cbn; repeat split.
    + rewrite C. reflexivity.
    + reflexivity.
    + intros [H0 _]. apply P. unfold this1. cbn. lia.
  - cbn [fst snd]. split; [apply same_setup_refl|]. split; [reflexivity|].
    split; [reflexivity|]. intros P; exact P.
  - cbn [fst snd]. split; [apply same_setup_refl|]. split; [reflexivity|].
    split; [reflexivity|]. intros P; exact P.
Qed.

(** X17: Across the page the placement test keeps every box inside, but for
    a box wider than the page, which is put at the start of a shelf. *)
Lemma place_fits_across (W H pw ph mch : Q) (this : DynamicBitmapFont) (l : Locals) :
  currentX (snd (place' W H pw ph mch this l)) + pw <= W
  \/ (currentX (snd (place' W H pw ph mch this l)) = 0 /\ W < pw).
Proof.
  unfold place. destruct (Qgtb (currentX l + pw) W) eqn:E.
  - assert (Hx : currentX
                   (snd (if Qgtb (currentY l + mch + ph) H
                         then
                           let '(this1, page) :=
                             nextPage
                               (emit (EvSourceUpdate (src_page (pg_texture (pageData l)))) this) in
                           (this1, mkLocals page 0 0 ph (skipTexture l))
                         else (this, mkLocals (pageData l) 0 (currentY l + mch) ph
                                       (skipTexture l)))) = 0).
    { destruct (Qgtb (currentY l + mch + ph) H); [|reflexivity].
      destruct (nextPage _) as [t pg]. reflexivity. }
    rewrite Hx. destruct (Qlt_le_dec W pw) as [Hlt|Hle].
    + right. split; [reflexivity | exact Hlt].
    + left. rewrite Qplus_0_l. exact Hle.
  - left. apply Qgtb_false in E. exact E.
Qed.

Lemma record_glyph_spec (char : string) (cw pw ph : Q) (this : DynamicBitmapFont) (l : Locals) :
  same_setup this (fst (record_glyph char cw pw ph this l))
  /\ pages (fst (record_glyph char cw pw ph this l)) = pages this
  /\ _currentPageIndex (fst (record_glyph char cw pw ph this l)) = _currentPageIndex this
  /\ exists cd,
       chars (fst (record_glyph char cw pw ph this l)) = <[char := cd]> (chars this)
       /\ xAdvance cd
          = cw - nullish (dropShadow (_style this)) 0 - nullish (_stroke (_style this)) 0
       /\ (skipTexture l = false -> texture cd = None)
       /\ (skipTexture l = true ->
           texture cd
           = Some (mkTexture (pg_texture (pageData l))
                     (glyph_frame (pg_texture (pageData l))
                        (baseRenderedFontSize this / baseMeasurementFontSize this)
                        (currentX l) (currentY l) pw ph))).
Proof.
  unfold record_glyph. destruct (skipTexture l); cbn [fst].
  - split; [unfold same_setup; cbn; repeat split|].
    split; [reflexivity|]. split; [reflexivity|].
    eexists. split; [cbn; apply insert_insert_eq|].
    cbn. repeat split. discriminate.
  - split; [unfold same_setup; cbn; repeat split|].
    split; [reflexivity|]. split; [reflexivity|].
    eexists. split; [cbn; reflexivity|].
    cbn. repeat split. discriminate.
Qed.

(** One turn of the loop: the setup is kept, the current page stays
    valid, and the record of the character is written, with the
    advance of line 212 and, for an empty character, no texture. *)
Lemma pack_char_spec (W H : Q) (st : DynamicBitmapFont * Locals) (char : string) :
  same_setup (fst st) (fst (pack_char' W H st char))
  /\ (page_ok (fst st) -> page_ok (fst (pack_char' W H st char)))
  /\ exists cd,
       chars (fst (pack_char' W H st char)) = <[char := cd]> (chars (fst st))
       /\ xAdvance cd = advance_of measureTextWidth (fst st) char
       /\ (is_visible char = false -> texture cd = None).
Proof.
  unfold pack_char.
  set (this2 := emit (EvMeasureText char) (emit (EvMeasureTextWidth char) (fst st))).
  assert (S2 : same_setup (fst st) this2)
    by (unfold this2, same_setup; cbn; repeat split).
  set (pw := paddedWidth_of this2 (measureTextWidth char)).
  set (ph := paddedHeight_of this2 _).
  set (mch := shelf_height char ph (maxCharHeight (snd st))).
  set (l0 := mkLocals _ _ _ _ (is_visible char)).
  destruct (place_spec W H pw ph mch this2 l0) as (S3&C3&V3&P3).
  set (placed := place' W H pw ph mch this2 l0) in *.
  destruct (record_glyph_spec char (measureTextWidth char) pw ph (fst placed) (snd placed))
    as (S4&Pg&Ix&cd&C4&A4&T4&_).
  split; [|split].
  - eapply same_setup_trans; [exact S2|]. eapply same_setup_trans; [exact S3 | exact S4].
  - intros P. unfold page_ok. rewrite Pg, Ix. apply P3. exact P.
  - exists cd. split; [|split].
    + rewrite C4, C3. reflexivity.
    + rewrite A4. unfold advance_of.
      destruct S3 as (_&_&_&_&E&_). rewrite E. reflexivity.
    + intros Hv. apply T4. rewrite V3. exact Hv.
Qed.

(** The whole loop. *)
Lemma pack_fold_spec (W H : Q) (cs : list string) (st : DynamicBitmapFont * Locals) :
  let st' := fold_left (pack_char' W H) cs st in
  same_setup (fst st) (fst st')
  /\ (page_ok (fst st) -> page_ok (fst st'))
  /\ (forall c, In c cs ->
        exists cd, chars (fst st') !! c = Some cd
                   /\ xAdvance cd = advance_of measureTextWidth (fst st) c
                   /\ (is_visible c = false -> texture cd = None))
  /\ (forall c, ~ In c cs -> chars (fst st') !! c = chars (fst st) !! c).
Proof.
  revert st. induction cs as [|c rest IH]; intros st; cbn [fold_left].
  - split; [apply same_setup_refl|]. split; [tauto|]. split; [intros c []|reflexivity].
  - destruct (pack_char_spec W H st c) as (S1&P1&cd&C1&A1&T1).
    destruct (IH (pack_char' W H st c)) as (S2&P2&In2&Out2).
    cbv zeta. split; [|split; [|split]].
    + eapply same_setup_trans; eassumption.
    + tauto.
    + intros c' [->|Hin].
      * destruct (in_dec string_dec c' rest) as [Hr|Hr].
        -- destruct (In2 c' Hr) as (cd'&E&A&T). exists cd'. split; [exact E|].
           split; [|exact T]. rewrite A. unfold advance_of.
           destruct S1 as (_&_&_&_&E'&_). rewrite E'. reflexivity.
        -- exists cd. rewrite (Out2 c' Hr), C1, lookup_insert_eq. auto.
      * destruct (In2 c' Hin) as (cd'&E&A&T). exists cd'. split; [exact E|].
        split; [|exact T]. rewrite A. unfold advance_of.
        destruct S1 as (_&_&_&_&E'&_). rewrite E'. reflexivity.
    + intros c' Hnin. rewrite Out2 by (intros H'; apply Hnin; right; exact H').
      rewrite C1. apply lookup_insert_ne. intros ->. apply Hnin. left. reflexivity.
Qed.

Local Abbreviation pack_characters' :=
  (pack_characters measureTextWidth measureText getOptimalCanvasAndContext ImageSource_size).

(** Packing does not throw on a well-formed font; it appends the new
    characters, keeps the font well formed and writes the record of
    every new character. *)
Lemma pack_characters_spec (cs : list string) (this : DynamicBitmapFont) :
  font_ok this ->
  exists p,
    pack_characters' cs this = Some p
    /\ page_ok p
    /\ _currentChars p = _currentChars this ++ cs
    /\ _style p = _style this
    /\ _skipKerning p = _skipKerning this
    /\ (forall c, In c cs ->
          exists cd, chars p !! c = Some cd
                     /\ xAdvance cd = advance_of measureTextWidth this c
                     /\ (is_visible c = false -> texture cd = None))
    /\ (forall c, ~ In c cs -> chars p !! c = chars this !! c).
Proof.
  intros [Hpage Hchars]. unfold pack_characters.
  set (this1 := set_currentChars (_currentChars this ++ cs) this).
  assert (Hstart : exists this2 page,
             (if (_currentPageIndex this1 =? -1)%Z then Some (nextPage this1)
              else match array_get (pages this1) (_currentPageIndex this1) with
                   | Some page => Some (this1, page)
                   | None => None
                   end) = Some (this2, page)
             /\ same_setup this1 this2 /\ page_ok this2 /\ chars this2 = chars this).
  { destruct (_currentPageIndex this1 =? -1)%Z eqn:E.
    - apply Z.eqb_eq in E.
      destruct (nextPage_spec this1) as (S&C&_).
      pose proof (nextPage_page_ok this1) as P.
      destruct (nextPage this1) as [this2 page]. cbn [fst snd] in *.
      exists this2, page. split; [reflexivity|]. split; [exact S|].
      split; [apply P; lia | rewrite C; reflexivity].
    - apply Z.eqb_neq in E. change (_currentPageIndex this1) with (_currentPageIndex this) in *.
      change (pages this1) with (pages this).
      destruct Hpage as [Hm|[H0 [page Hp]]]; [contradiction|].
      rewrite Hp. exists this1, page. split; [reflexivity|].
      split; [apply same_setup_refl|]. split; [|reflexivity].
      split; [exact H0 | eexists; exact Hp]. }
  destruct Hstart as (this2&page&E&S2&P2&C2). rewrite E.
  set (W := cv_width (canvasAndContext page) / resolution this2).
  set (H := cv_height (canvasAndContext page) / resolution this2).
  set (st0 := (this2, mkLocals page (_currentX this2) (_currentY this2) 0 false)).
  destruct (pack_fold_spec W H cs st0) as (S3&P3&In3&Out3).
  set (st := fold_left (pack_char' W H) cs st0) in *.
  unfold st0 in S3, P3, In3, Out3. cbn [fst] in S3, P3, In3, Out3.
  eexists. split; [reflexivity|].
  pose proof (same_setup_trans _ _ _ S2 S3) as S13.
  destruct S13 as (_&_&_&_&Est&Esk&_&_&Ecc).
  split; [|split; [|split; [|split; [|split]]]].
  - specialize (P3 P2). unfold page_ok in *. cbn. exact P3.
  - cbn. rewrite Ecc. reflexivity.
  - cbn. rewrite Est. reflexivity.
  - cbn. rewrite Esk. reflexivity.
  - intros c Hc. destruct (In3 c Hc) as (cd&Ecd&A&T). exists cd.
    split; [exact Ecd|]. split; [|exact T]. rewrite A. unfold advance_of.
    destruct S2 as (_&_&_&_&Es&_). rewrite Es. reflexivity.
  - intros c Hc. cbn. rewrite (Out3 c Hc). rewrite C2. reflexivity.
Qed.

Variable resolveCharacters : string -> list string.

Local Abbreviation ensureCharacters' :=
  (ensureCharacters resolveCharacters measureTextWidth measureText
     getOptimalCanvasAndContext ImageSource_size).
Local Abbreviation new_characters' := (new_characters resolveCharacters).

(** [ensureCharacters] does not throw on a well-formed font and keeps
    it well formed. *)
Lemma ensureCharacters_spec (text : string) (this : DynamicBitmapFont) :
  font_ok this ->
  exists this',
    ensureCharacters' text this = Some this'
    /\ font_ok this'
    /\ (new_characters' text this = [] -> this' = this)
    /\ _currentChars this' = _currentChars this ++ new_characters' text this
    /\ _style this' = _style this
    /\ (forall c, In c (new_characters' text this) ->
          exists cd, chars this' !! c = Some cd
                     /\ xAdvance cd = advance_of measureTextWidth this c
                     /\ (is_visible c = false -> texture cd = None)).
Proof.
  intros Hok. unfold ensureCharacters.
  set (cs := new_characters' text this).
  destruct (length cs =? 0)%nat eqn:E.
  - apply Nat.eqb_eq in E. destruct cs; [|discriminate].
    exists this. split; [reflexivity|]. split; [exact Hok|]. split; [reflexivity|].
    split; [rewrite app_nil_r; reflexivity|]. split; [reflexivity|]. intros c [].
  - apply Nat.eqb_neq in E.
    destruct (pack_characters_spec cs this Hok) as (p&Ep&Pp&Cp&Sp&Kp&Inp&Outp).
    rewrite Ep.
    assert (Hall : forall c, In c (_currentChars p) -> is_Some (chars p !! c)).
    { intros c Hc. rewrite Cp in Hc.
      destruct (in_dec string_dec c cs) as [Hin|Hnin].
      - destruct (Inp c Hin) as (cd&Ecd&_). eexists; exact Ecd.
      - rewrite (Outp c Hnin). apply Hok. apply in_app_or in Hc. tauto. }
    assert (Hfin : exists this',
               (if _skipKerning p then _applyKerning measureTextWidth cs p else Some p)
               = Some this' /\ kerning_only p this').
    { destruct (_skipKerning p).
      - apply applyKerning_kerning_only; [|exact Hall].
        intros c Hc. apply Hall. rewrite Cp. apply in_or_app. right. exact Hc.
      - exists p. split; [reflexivity | apply kerning_only_refl]. }
    destruct Hfin as (this'&E'&K). exists this'. split; [exact E'|].
    pose proof K as (S&Pg&Ix&_). destruct S as (_&_&_&_&Est&_&_&_&Ecc).
    split; [|split; [|split; [|split]]].
    + split.
      * right. unfold page_ok in Pp. rewrite Pg, Ix. exact Pp.
      * intros c Hc. eapply kerning_only_is_Some; [exact K|]. apply Hall.
        rewrite <- Ecc. exact Hc.
    + intros Hnil. destruct cs; [cbn in E; congruence | discriminate].
    + rewrite Ecc. exact Cp.
    + rewrite Est. exact Sp.
    + intros c Hc. destruct (Inp c Hc) as (cd&Ecd&A&T).
      pose proof (kerning_only_lookup p this' c K) as L. rewrite Ecd in L.
      destruct (chars this' !! c) as [cd'|]; [|discriminate].
      cbn in L. injection L as _ _ _ Ea Et.
      exists cd'. split; [reflexivity|]. split; [congruence|].
      intros Hv. rewrite Et. apply T. exact Hv.
Qed.

(** A call that finds new characters is the packing of them followed,
    when the guard of line 263 lets it, by the kerning pass, which
    changes kerning tables, the measure cache and the trace only. *)
Lemma ensureCharacters_packs (text : string) (this : DynamicBitmapFont) :
  font_ok this -> new_characters' text this <> [] ->
  exists p this',
    pack_characters' (new_characters' text this) this = Some p
    /\ ensureCharacters' text this = Some this'
    /\ kerning_only p this'.
Proof.
  intros Hok Hne. unfold ensureCharacters.
  set (cs := new_characters' text this) in *.
  destruct (length cs =? 0)%nat eqn:E.
  { apply Nat.eqb_eq in E. destruct cs; [congruence | discriminate]. }
  destruct (pack_characters_spec cs this Hok) as (p&Ep&Pp&Cp&Sp&Kp&Inp&Outp).
  rewrite Ep. exists p.
  assert (Hall : forall c, In c (_currentChars p) -> is_Some (chars p !! c)).
  { intros c Hc. rewrite Cp in Hc.
    destruct (in_dec string_dec c cs) as [Hin|Hnin].
    - destruct (Inp c Hin) as (cd&Ecd&_). eexists; exact Ecd.
    - rewrite (Outp c Hnin). apply Hok. apply in_app_or in Hc. tauto. }
  destruct (_skipKerning p).
  - destruct (applyKerning_kerning_only measureTextWidth cs p) as (this'&E'&K).
    + intros c Hc. apply Hall. rewrite Cp. apply in_or_app. right. exact Hc.
    + exact Hall.
    + exists this'. split; [reflexivity|]. split; assumption.
  - exists p. split; [reflexivity|]. split; [reflexivity | apply kerning_only_refl].
Qed.

Lemma new_characters_again (text : string) (this this' : DynamicBitmapFont) :
  _currentChars this' = _currentChars this ++ new_characters' text this ->
  new_characters' text this' = [].
Proof.
  intros Hcc. unfold new_characters at 1.
  rewrite filter_all_false; [reflexivity|].
  intros x Hx. apply negb_false_iff. apply includes_In. rewrite Hcc.
  apply in_or_app.
  destruct (includes (_currentChars this) x) eqn:E.
  - left. apply includes_In. exact E.
  - right. unfold new_characters, filter_indexed.
    apply (dedupe_from_keeps x _ []); [|intros []].
    apply filter_In. split; [exact Hx|]. rewrite E. reflexivity.
Qed.

(** C2: on a font as the constructor and earlier calls leave it,
    ensureCharacters(s) returns, and a second ensureCharacters(s)
    returns the very same font: no glyph record, cursor move, page or
    collaborator call is added.  Whenever the filtered list of new
    characters is empty the call returns the font as it was. *)
Theorem C2_ensureCharacters_idempotent (text : string) (this : DynamicBitmapFont) :
  font_ok this ->
  (exists this',
      ensureCharacters' text this = Some this'
      /\ ensureCharacters' text this' = Some this')
  /\ (new_characters' text this = [] -> ensureCharacters' text this = Some this).
Proof.
  intros Hok. split.
  - destruct (ensureCharacters_spec text this Hok) as (this'&E&_&_&Hcc&_).
    exists this'. split; [exact E|].
    unfold ensureCharacters. rewrite (new_characters_again text this this' Hcc).
    reflexivity.
  - intros Hnil. unfold ensureCharacters. rewrite Hnil. reflexivity.
Qed.

Lemma new_font_ok (rendered0 measurement0 : Q) (options : DynamicBitmapFontOptions) :
  font_ok (new_DynamicBitmapFont rendered0 measurement0 options).
Proof.
  unfold new_DynamicBitmapFont, font_ok.
  destruct (o_overrideSize options); cbn; (split; [left; reflexivity | intros c []]).
Qed.

Lemma new_font_style (rendered0 measurement0 : Q) (options : DynamicBitmapFontOptions) :
  dropShadow (_style (new_DynamicBitmapFont rendered0 measurement0 options))
  = dropShadow (o_style options)
  /\ _stroke (_style (new_DynamicBitmapFont rendered0 measurement0 options))
     = effective_stroke rendered0 options.
Proof.
  unfold new_DynamicBitmapFont, effective_stroke.
  destruct (o_overrideSize options); cbn; (split; [reflexivity|]);
    destruct (_stroke (o_style options)); reflexivity.
Qed.

(** C8, amended: every character a call of ensureCharacters adds gets
    the advance "measured width - drop-shadow distance - stroke width
    of the font's style".  The constructor leaves in the style the
    configured stroke width when overrideSize is off, and the configured
    width times baseRenderedFontSize / requested font size when it is
    on; with overrideSize off (or no stroke) the advance is the
    configured one and does not depend on the requested size. *)
Theorem C8_advance_subtracts_style_stroke
    (rendered0 measurement0 : Q) (options : DynamicBitmapFontOptions)
    (text : string) (this : DynamicBitmapFont) :
  font_ok this ->
  _style this = _style (new_DynamicBitmapFont rendered0 measurement0 options) ->
  (exists this',
      ensureCharacters' text this = Some this'
      /\ forall c, In c (new_characters' text this) ->
           xAdvance_of this' c
           = Some (measureTextWidth c
                   - nullish (dropShadow (o_style options)) 0
                   - nullish (effective_stroke rendered0 options) 0))
  /\ (o_overrideSize options = false ->
      effective_stroke rendered0 options = _stroke (o_style options))
  /\ (o_overrideSize options = true ->
      effective_stroke rendered0 options
      = option_map (fun w => w * (rendered0 / fontSize (o_style options)))
          (_stroke (o_style options))).
Proof.
  intros Hok Hstyle. split; [|split].
  - destruct (ensureCharacters_spec text this Hok) as (this'&E&_&_&_&_&Hin).
    exists this'. split; [exact E|].
    intros c Hc. destruct (Hin c Hc) as (cd&Ecd&A&_).
    unfold xAdvance_of. rewrite Ecd, A. unfold advance_of. rewrite Hstyle.
    destruct (new_font_style rendered0 measurement0 options) as [-> ->]. reflexivity.
  - intros Hoff. unfold effective_stroke. rewrite Hoff.
    destruct (_stroke (o_style options)); reflexivity.
  - intros Hon. unfold effective_stroke. rewrite Hon.
    destruct (_stroke (o_style options)); reflexivity.
Qed.

End Packing.

(** C2 at work: "ab.d" asked twice of a new font. *)
Lemma C2_idempotent_witness :
  font_ok (Demo.make (Demo.pack_options 20))
  /\ (exists this',
        Demo.run Demo.ten Demo.dot_height "ab.d" (Demo.make (Demo.pack_options 20)) = Some this'
        /\ Demo.run Demo.ten Demo.dot_height "ab.d" this' = Some this').
Proof.
  assert (Hok : font_ok (Demo.make (Demo.pack_options 20)))
    by (split; [left; reflexivity | intros c []]).
  split; [exact Hok|].
  apply (C2_ensureCharacters_idempotent Demo.ten
           (Demo.metrics_of Demo.dot_height) Demo.getOptimalCanvasAndContext
           Demo.ImageSource_size Demo.resolveCharacters "ab.d"
           (Demo.make (Demo.pack_options 20))).
  exact Hok.
Defined.

(** C8 at work: "A" on a font with a stroke of 10, requested at size 20
    with overrideSize. *)
Lemma C8_advance_witness :
  exists this',
    Demo.run Demo.seventy Demo.square_height "A" (Demo.make (Demo.stroke_options 20)) = Some this'
    /\ forall c,
         In c (new_characters Demo.resolveCharacters "A" (Demo.make (Demo.stroke_options 20))) ->
         xAdvance_of this' c
         = Some (Demo.seventy c
                 - nullish (dropShadow (o_style (Demo.stroke_options 20))) 0
                 - nullish (effective_stroke 100 (Demo.stroke_options 20)) 0).
Proof.
  apply (C8_advance_subtracts_style_stroke Demo.seventy
           (Demo.metrics_of Demo.square_height) Demo.getOptimalCanvasAndContext
           Demo.ImageSource_size Demo.resolveCharacters 100 100 (Demo.stroke_options 20) "A"
           (Demo.make (Demo.stroke_options 20))).
  - split; [left; reflexivity | intros c []].
  - reflexivity.
Defined.

(** ** Overflow to a second page *)

Lemma Math_ceil_shelf (ph mch : Q) (chh : Z) :
  Qceiling ph = chh -> 0 < ph ->
  mch == 0 \/ mch == ph \/ mch == inject_Z chh ->
  Math_ceil (Math_max ph mch) = inject_Z chh.
Proof.
  intros Hc Hpos Hm. unfold Math_ceil, Math_max. f_equal.
  destruct (Qle_bool ph mch) eqn:E; [|exact Hc].
  apply Qle_bool_iff in E.
  destruct Hm as [Hm|[Hm|Hm]].
  - exfalso. rewrite Hm in E. apply (Qlt_not_le _ _ Hpos E).
  - rewrite Hm. exact Hc.
  - rewrite Hm. apply Qceiling_Z.
Qed.

Lemma holds_exactly_facts (n : nat) (size room : Q) :
  (1 <= n)%nat -> holds_exactly n size room ->
  (0 < Qceiling size)%Z
  /\ 0 < size
  /\ inject_Z (Z.of_nat (n - 1) * Qceiling size) + size <= room
  /\ room < inject_Z (Z.of_nat n * Qceiling size) + size.
Proof.
  intros Hn [H1 H2]. unfold Math_ceil in *.
  rewrite <- inject_Z_mult in H1, H2.
  assert (Hc : (0 < Qceiling size)%Z).
  { assert (Hlt : inject_Z (Z.of_nat (n - 1) * Qceiling size)
                  < inject_Z (Z.of_nat n * Qceiling size)).
    { eapply Qplus_lt_l with (z := size). eapply Qle_lt_trans; eassumption. }
    rewrite <- Zlt_Qlt in Hlt. nia. }
  split; [exact Hc|]. split; [|split; assumption].
  apply Qnot_le_lt. intros Hle.
  apply Qceiling_resp_le in Hle. change (Qceiling 0) with 0%Z in Hle. lia.
Qed.

Section Overflow.
Variable measureTextWidth : string -> Q.
Variable measureText : string -> TextStyle -> Canvas -> CanvasTextMetrics.
Variable getOptimalCanvasAndContext : Q -> Q -> Q -> Canvas.
Variable ImageSource_size : Canvas -> Q -> Q * Q.

Local Abbreviation nextPage := (_nextPage getOptimalCanvasAndContext ImageSource_size).
Local Abbreviation place' := (place getOptimalCanvasAndContext ImageSource_size).
Local Abbreviation pack_char' :=
  (pack_char measureTextWidth measureText getOptimalCanvasAndContext ImageSource_size).

Lemma padded_of_same (a b : DynamicBitmapFont) (x : Q) :
  same_setup a b ->
  paddedWidth_of b x = paddedWidth_of a x /\ paddedHeight_of b x = paddedHeight_of a x.
Proof.
  intros (E1&E2&_&E4&E5&_). unfold paddedWidth_of, paddedHeight_of.
  rewrite E1, E2, E4, E5. split; reflexivity.
Qed.

Lemma place_stay (W H pw ph mch : Q) (this : DynamicBitmapFont) (l : Locals) :
  currentX l + pw <= W ->
  place' W H pw ph mch this l
  = (this, mkLocals (pageData l) (currentX l) (currentY l) mch (skipTexture l)).
Proof.
  intros Hle. unfold place. apply Qgtb_false in Hle. rewrite Hle. reflexivity.
Qed.

Lemma place_new_shelf (W H pw ph mch : Q) (this : DynamicBitmapFont) (l : Locals) :
  W < currentX l + pw -> currentY l + mch + ph <= H ->
  place' W H pw ph mch this l
  = (this, mkLocals (pageData l) 0 (currentY l + mch) ph (skipTexture l)).
Proof.
  intros Hx Hy. unfold place.
  apply Qgtb_true in Hx. apply Qgtb_false in Hy. rewrite Hx, Hy. reflexivity.
Qed.

Lemma place_new_page (W H pw ph mch : Q) (this : DynamicBitmapFont) (l : Locals) :
  W < currentX l + pw -> H < currentY l + mch + ph ->
  place' W H pw ph mch this l
  = (fst (nextPage (emit (EvSourceUpdate (src_page (pg_texture (pageData l)))) this)),
     mkLocals (snd (nextPage (emit (EvSourceUpdate (src_page (pg_texture (pageData l)))) this)))
       0 0 ph (skipTexture l)).
Proof.
  intros Hx Hy. unfold place.
  apply Qgtb_true in Hx. apply Qgtb_true in Hy. rewrite Hx, Hy.
  destruct (nextPage _) as [t p]. reflexivity.
Qed.

Lemma record_glyph_locals (char : string) (cw pw ph : Q)
    (this : DynamicBitmapFont) (l : Locals) :
  skipTexture l = true ->
  snd (record_glyph char cw pw ph this l)
  = mkLocals (pageData l) (currentX l + Math_ceil pw) (currentY l) (maxCharHeight l) true.
Proof.
  intros Hv. unfold record_glyph. rewrite Hv. reflexivity.
Qed.

(** The setting of the overflow run: every glyph measures [w] by [h],
    [base] is the font and [page0] the page with which the loop
    starts. *)
Variables (w h pw ph W H : Q) (cw chh : Z) (N M : nat).
Variables (base : DynamicBitmapFont) (page0 : PageData).

Hypothesis Hpw : paddedWidth_of base w = pw.
Hypothesis Hph : paddedHeight_of base h = ph.
Hypothesis Hcw : Qceiling pw = cw.
Hypothesis Hchh : Qceiling ph = chh.
Hypothesis HN : (1 <= N)%nat.
Hypothesis HM : (1 <= M)%nat.
Hypothesis cw_pos : (0 < cw)%Z.
Hypothesis chh_pos : (0 < chh)%Z.
Hypothesis ph_pos : 0 < ph.
Hypothesis HW1 : inject_Z (Z.of_nat (N - 1) * cw) + pw <= W.
Hypothesis HW2 : W < inject_Z (Z.of_nat N * cw) + pw.
Hypothesis HH1 : inject_Z (Z.of_nat (M - 1) * chh) + ph <= H.
Hypothesis HH2 : H < inject_Z (Z.of_nat M * chh) + ph.
Hypothesis Hpage0 : src_page (pg_texture page0) = 0%Z.

Local Abbreviation uniform' := (uniform measureTextWidth measureText w h).
Local Abbreviation on_shelf' := (on_shelf base page0 cw chh ph).

Lemma pack_char_uniform (st : DynamicBitmapFont * Locals) (c : string) :
  uniform' c -> same_setup base (fst st) ->
  maxCharHeight (snd st) == 0 \/ maxCharHeight (snd st) == ph
              \/ maxCharHeight (snd st) == inject_Z chh ->
  pack_char' W H st c
  = record_glyph c w pw ph
      (fst (place' W H pw ph (inject_Z chh)
              (emit (EvMeasureText c) (emit (EvMeasureTextWidth c) (fst st)))
              (mkLocals (pageData (snd st)) (currentX (snd st)) (currentY (snd st))
                 (maxCharHeight (snd st)) true)))
      (snd (place' W H pw ph (inject_Z chh)
              (emit (EvMeasureText c) (emit (EvMeasureTextWidth c) (fst st)))
              (mkLocals (pageData (snd st)) (currentX (snd st)) (currentY (snd st))
                 (maxCharHeight (snd st)) true))).
Proof.
  intros (Hv&Hw&Hh) S Hm. unfold pack_char.
  cbn [m_height]. rewrite Hw, Hh, Hv.
  destruct (padded_of_same base (fst st) w S) as [Ew _].
  destruct (padded_of_same base (fst st) h S) as [_ Eh].
  change (paddedWidth_of (emit (EvMeasureText c) (emit (EvMeasureTextWidth c) (fst st))) w)
    with (paddedWidth_of (fst st) w).
  change (paddedHeight_of (emit (EvMeasureText c) (emit (EvMeasureTextWidth c) (fst st))) h)
    with (paddedHeight_of (fst st) h).
  rewrite Ew, Eh, Hpw, Hph.
  unfold shelf_height. rewrite Hv.
  rewrite (Math_ceil_shelf ph (maxCharHeight (snd st)) chh Hchh ph_pos Hm).
  reflexivity.
Qed.

Lemma record_glyph_page_of (char : string) (x pw' ph' : Q)
    (this : DynamicBitmapFont) (l : Locals) (c : string) :
  skipTexture l = true ->
  (c = char ->
   page_of (fst (record_glyph char x pw' ph' this l)) c
   = Some (src_page (pg_texture (pageData l)))
   /\ frame_of (fst (record_glyph char x pw' ph' this l)) c
      = Some (glyph_frame (pg_texture (pageData l))
                (baseRenderedFontSize this / baseMeasurementFontSize this)
                (currentX l) (currentY l) pw' ph'))
  /\ (c <> char ->
      chars (fst (record_glyph char x pw' ph' this l)) !! c = chars this !! c
      /\ page_of (fst (record_glyph char x pw' ph' this l)) c = page_of this c).
Proof.
  intros Hv.
  destruct (record_glyph_spec char x pw' ph' this l) as (_&_&_&cd&C&_&_&T).
  specialize (T Hv). unfold page_of, frame_of. rewrite C. split.
  - intros ->. rewrite lookup_insert_eq, T. split; reflexivity.
  - intros Hne. rewrite lookup_insert_ne by congruence. split; reflexivity.
Qed.

Lemma inject_Z_step (k : nat) (z : Z) :
  inject_Z (Z.of_nat k * z) + inject_Z z == inject_Z (Z.of_nat (S k) * z).
Proof.
  rewrite <- inject_Z_plus. replace (Z.of_nat (S k) * z)%Z with (Z.of_nat k * z + z)%Z by lia.
  reflexivity.
Qed.

(** A glyph that still fits on the shelf. *)
Lemma on_shelf_stay (q r : nat) (st : DynamicBitmapFont * Locals) (c : string) :
  uniform' c -> on_shelf' q r st -> (r < N)%nat ->
  on_shelf' q (S r) (pack_char' W H st c).
Proof.
  intros U (S&Pg&Ix&Pd&HX&HY&Hm&Hpo) Hr.
  rewrite (pack_char_uniform st c U S Hm).
  rewrite place_stay.
  2:{ cbn [currentX]. rewrite HX.
      assert (Hle : inject_Z (Z.of_nat r * cw) <= inject_Z (Z.of_nat (N - 1) * cw))
        by (rewrite <- Zle_Qle; nia).
      eapply Qle_trans; [|exact HW1]. apply Qplus_le_l. exact Hle. }
  cbn [fst snd pageData currentX currentY maxCharHeight skipTexture].
  set (this2 := emit (EvMeasureText c) (emit (EvMeasureTextWidth c) (fst st))).
  set (l1 := mkLocals _ _ _ _ true).
  destruct (record_glyph_spec c w pw ph this2 l1) as (S4&Pg4&Ix4&_).
  pose proof (fun c' => record_glyph_page_of c w pw ph this2 l1 c' eq_refl) as HPO.
  unfold on_shelf. rewrite record_glyph_locals by reflexivity.
  subst l1. cbn [pageData currentX currentY maxCharHeight snd].
  split; [|split; [|split; [|split; [|split; [|split; [|split]]]]]].
  - eapply same_setup_trans; [exact S|]. eapply same_setup_trans; [|exact S4].
    unfold this2, same_setup; cbn; repeat split.
  - rewrite Pg4. exact Pg.
  - rewrite Ix4. exact Ix.
  - exact Pd.
  - unfold Math_ceil. rewrite Hcw, HX. apply inject_Z_step.
  - exact HY.
  - right. right. reflexivity.
  - intros c' Hc'.
    destruct (HPO c') as [Heq Hne].
    destruct (string_dec c' c) as [E|E].
    + destruct (Heq E) as [-> _]. cbn [pageData]. rewrite Pd, Hpage0. reflexivity.
    + destruct (Hne E) as [Ec ->]. rewrite Ec in Hc'. apply Hpo. exact Hc'.
Qed.

(** A glyph that finds the shelf full and opens the next one. *)
Lemma on_shelf_wrap (q : nat) (st : DynamicBitmapFont * Locals) (c : string) :
  uniform' c -> on_shelf' q N st -> (S q < M)%nat ->
  on_shelf' (S q) 1 (pack_char' W H st c).
Proof.
  intros U (S&Pg&Ix&Pd&HX&HY&Hm&Hpo) Hq.
  rewrite (pack_char_uniform st c U S Hm).
  rewrite place_new_shelf.
  2:{ cbn [currentX]. rewrite HX. exact HW2. }
  2:{ cbn [currentY]. rewrite HY, inject_Z_step.
      assert (Hle : inject_Z (Z.of_nat (Datatypes.S q) * chh)
                    <= inject_Z (Z.of_nat (M - 1) * chh))
        by (rewrite <- Zle_Qle; nia).
      eapply Qle_trans; [|exact HH1]. apply Qplus_le_l. exact Hle. }
  cbn [fst snd pageData currentX currentY maxCharHeight skipTexture].
  set (this2 := emit (EvMeasureText c) (emit (EvMeasureTextWidth c) (fst st))).
  set (l1 := mkLocals _ _ _ _ true).
  destruct (record_glyph_spec c w pw ph this2 l1) as (S4&Pg4&Ix4&_).
  pose proof (fun c' => record_glyph_page_of c w pw ph this2 l1 c' eq_refl) as HPO.
  unfold on_shelf. rewrite record_glyph_locals by reflexivity.
  subst l1. cbn [pageData currentX currentY maxCharHeight snd].
  split; [|split; [|split; [|split; [|split; [|split; [|split]]]]]].
  - eapply same_setup_trans; [exact S|]. eapply same_setup_trans; [|exact S4].
    unfold this2, same_setup; cbn; repeat split.
  - rewrite Pg4. exact Pg.
  - rewrite Ix4. exact Ix.
  - exact Pd.
  - unfold Math_ceil. rewrite Hcw.
    change 0 with (inject_Z (Z.of_nat 0 * cw)). apply inject_Z_step.
  - rewrite HY. apply inject_Z_step.
  - right. left. reflexivity.
  - intros c' Hc'.
    destruct (HPO c') as [Heq Hne].
    destruct (string_dec c' c) as [E|E].
    + destruct (Heq E) as [-> _]. cbn [pageData]. rewrite Pd, Hpage0. reflexivity.
    + destruct (Hne E) as [Ec ->]. rewrite Ec in Hc'. apply Hpo. exact Hc'.
Qed.

(** [N * M] glyphs fill the first page. *)
Lemma on_shelf_fill (cs : list string) :
  forall (q r : nat) (st : DynamicBitmapFont * Locals),
    (forall c, In c cs -> uniform' c) ->
    on_shelf' q r st -> (r <= N)%nat -> (q < M)%nat ->
    (q * N + r + length cs = N * M)%nat ->
    on_shelf' (M - 1) N (fold_left (pack_char' W H) cs st).
Proof.
  induction cs as [|c rest IH]; intros q r st U Inv Hr Hq Hlen.
  - cbn [length] in Hlen. cbn [fold_left].
    assert (q = (M - 1)%nat /\ r = N) as [-> ->] by nia.
    exact Inv.
  - cbn [length] in Hlen. cbn [fold_left].
    assert (Uc : uniform' c) by (apply U; left; reflexivity).
    assert (Ur : forall c', In c' rest -> uniform' c') by (intros c' Hc'; apply U; right; exact Hc').
    destruct (Nat.eq_dec r N) as [->|Hne].
    + apply (IH (S q) 1%nat); [exact Ur | | lia | nia | nia].
      apply on_shelf_wrap; [exact Uc | exact Inv | nia].
    + apply (IH q (S r)); [exact Ur | | lia | lia | lia].
      apply on_shelf_stay; [exact Uc | exact Inv | lia].
Qed.

(** The glyph after the last shelf is full goes to (0, 0) of a second
    page. *)
Lemma on_shelf_overflow (st : DynamicBitmapFont * Locals) (c : string) :
  uniform' c -> on_shelf' (M - 1) N st ->
  length (pages (fst (pack_char' W H st c))) = 2%nat
  /\ page_of (fst (pack_char' W H st c)) c = Some 1%Z
  /\ (exists r, frame_of (fst (pack_char' W H st c)) c = Some r
                /\ r_x r == 0 /\ r_y r == 0)
  /\ (forall c', c' <> c ->
        chars (fst (pack_char' W H st c)) !! c' = chars (fst st) !! c'
        /\ page_of (fst (pack_char' W H st c)) c' = page_of (fst st) c').
Proof.
  intros U (S&Pg&Ix&Pd&HX&HY&Hm&Hpo).
  rewrite (pack_char_uniform st c U S Hm).
  rewrite place_new_page.
  2:{ cbn [currentX]. rewrite HX. exact HW2. }
  2:{ cbn [currentY]. rewrite HY, inject_Z_step.
      replace (Datatypes.S (M - 1)) with M by lia. exact HH2. }
  cbn [fst snd pageData currentX currentY maxCharHeight skipTexture].
  set (this3 := emit (EvSourceUpdate _) _).
  destruct (nextPage_spec getOptimalCanvasAndContext ImageSource_size this3)
    as (_&C3&Ix3&Pg3&_&Sp3).
  set (l1 := mkLocals _ _ _ _ true).
  destruct (record_glyph_spec c w pw ph (fst (nextPage this3)) l1) as (_&Pg4&_).
  pose proof (fun c' => record_glyph_page_of c w pw ph (fst (nextPage this3)) l1 c' eq_refl)
    as HPO.
  change (_currentPageIndex this3) with (_currentPageIndex (fst st)) in *.
  change (pages this3) with (pages (fst st)) in *.
  change (chars this3) with (chars (fst st)) in *.
  rewrite Ix in *. rewrite Pg in *.
  split; [|split; [|split]].
  - rewrite Pg4, Pg3. reflexivity.
  - destruct (HPO c) as [Heq _]. destruct (Heq eq_refl) as [-> _].
    subst l1. cbn [pageData]. rewrite Sp3. reflexivity.
  - destruct (HPO c) as [Heq _]. destruct (Heq eq_refl) as [_ ->].
    eexists. split; [reflexivity|].
    subst l1. cbn [glyph_frame r_x r_y currentX currentY].
    split; unfold Qdiv; ring.
  - intros c' Hne. destruct (HPO c') as [_ Hother].
    destruct (Hother Hne) as [Ec Ep]. rewrite Ec, Ep, C3.
    split; [reflexivity|]. unfold page_of. rewrite C3. reflexivity.
Qed.

End Overflow.

Lemma filter_all_true {A} (p : A -> bool) (l : list A) :
  (forall x, In x l -> p x = true) -> List.filter p l = l.
Proof.
  induction l as [|y rest IH]; intros H; [reflexivity|].
  cbn [List.filter]. rewrite (H y) by (left; reflexivity).
  f_equal. apply IH. intros x Hx. apply H. right. assumption.
Qed.

Lemma new_font_fields (rendered0 measurement0 : Q) (options : DynamicBitmapFontOptions) :
  _currentChars (new_DynamicBitmapFont rendered0 measurement0 options) = []
  /\ chars (new_DynamicBitmapFont rendered0 measurement0 options) = ∅
  /\ pages (new_DynamicBitmapFont rendered0 measurement0 options) = []
  /\ _currentPageIndex (new_DynamicBitmapFont rendered0 measurement0 options) = (-1)%Z
  /\ _currentX (new_DynamicBitmapFont rendered0 measurement0 options) = 0
  /\ _currentY (new_DynamicBitmapFont rendered0 measurement0 options) = 0.
Proof.
  unfold new_DynamicBitmapFont. destruct (o_overrideSize options); cbn; repeat split.
Qed.

Section OverflowClaim.
Variable measureTextWidth : string -> Q.
Variable measureText : string -> TextStyle -> Canvas -> CanvasTextMetrics.
Variable getOptimalCanvasAndContext : Q -> Q -> Q -> Canvas.
Variable ImageSource_size : Canvas -> Q -> Q * Q.
Variable resolveCharacters : string -> list string.

Local Abbreviation nextPage := (_nextPage getOptimalCanvasAndContext ImageSource_size).
Local Abbreviation pack_char' :=
  (pack_char measureTextWidth measureText getOptimalCanvasAndContext ImageSource_size).
Local Abbreviation ensureCharacters' :=
  (ensureCharacters resolveCharacters measureTextWidth measureText
     getOptimalCanvasAndContext ImageSource_size).

End OverflowClaim.


(** * Further properties *)

(** ** The shader bit, continued *)

Module ShaderFacts.
Import Shader.
Local Open Scope R_scope.

Lemma smoothstep_range (e0 e1 x : R) : 0 <= smoothstep e0 e1 x <= 1.
Proof.
  unfold smoothstep, clamp.
  set (t := Rmin (Rmax ((x - e0) / (e1 - e0)) 0) 1).
  assert (Ht : 0 <= t <= 1).
  { unfold t, Rmin, Rmax.
    destruct (Rle_dec ((x - e0) / (e1 - e0)) 0); destruct (Rle_dec _ 1); lra. }
  clearbody t. split.
  - apply Rmult_le_pos; nra.
  - assert (H2 : 0 <= (1 - t) * (1 - t) * (1 + 2 * t)) by (apply Rmult_le_pos; nra).
    lra.
Qed.

Lemma pow_unit (x y : R) : 0 <= x <= 1 -> 0 < y -> 0 <= pow x y <= 1.
Proof.
  intros [H0 H1] Hy. unfold pow. destruct (Req_dec_T x 0) as [E|E]; [lra|].
  unfold Rpower. split; [left; apply exp_pos|].
  rewrite <- exp_0. destruct (Req_dec x 1) as [->|Hx].
  - rewrite ln_1, Rmult_0_r. lra.
  - left. apply exp_increasing.
    assert (Hln : ln x < 0) by (rewrite <- ln_1; apply ln_increasing; lra).
    nra.
Qed.

Lemma pow_one (y : R) : pow 1 y = 1.
Proof.
  unfold pow. destruct (Req_dec_T 1 0) as [E|E]; [lra|].
  unfold Rpower. rewrite ln_1, Rmult_0_r. apply exp_0.
Qed.

(** The expression of lines 8-10 (and 55-57) is the middle one of the
    three channels. *)
Lemma median_between (x y z : R) :
  Rmin x (Rmin y z) <= x + y + z - Rmin x (Rmin y z) - Rmax x (Rmax y z) <= Rmax x (Rmax y z)
  /\ (x + y + z - Rmin x (Rmin y z) - Rmax x (Rmax y z) = x
      \/ x + y + z - Rmin x (Rmin y z) - Rmax x (Rmax y z) = y
      \/ x + y + z - Rmin x (Rmin y z) - Rmax x (Rmax y z) = z).
Proof.
  unfold Rmin, Rmax.
  destruct (Rle_dec y z); destruct (Rle_dec x y); destruct (Rle_dec x z);
    repeat split; try lra; auto; try (right; left; lra); try (right; right; lra); left; lra.
Qed.

Lemma median_low (t : R) (c : vec4) :
  a c < t \/ two_below t c ->
  Rmin (r c + g c + b c - Rmin (r c) (Rmin (g c) (b c)) - Rmax (r c) (Rmax (g c) (b c))) (a c) < t.
Proof.
  unfold two_below, Rmin, Rmax.
  intros H.
  destruct (Rle_dec (g c) (b c)); destruct (Rle_dec (r c) (g c)); destruct (Rle_dec (r c) (b c));
    destruct (Rle_dec _ (a c)); lra.
Qed.

Lemma median_high (t : R) (c : vec4) :
  t < a c -> two_above t c ->
  t < Rmin (r c + g c + b c - Rmin (r c) (Rmin (g c) (b c)) - Rmax (r c) (Rmax (g c) (b c))) (a c).
Proof.
  unfold two_above, Rmin, Rmax.
  intros Ha H.
  destruct (Rle_dec (g c) (b c)); destruct (Rle_dec (r c) (g c)); destruct (Rle_dec (r c) (b c));
    destruct (Rle_dec _ (a c)); lra.
Qed.

Lemma gamma_pos (s : vec4) :
  unit_color s ->
  0 < mix 1 (1 / 1.8) (dot3 (r s) (g s) (b s) 0.299 0.587 0.114).
Proof.
  unfold unit_color, mix, dot3. intros (Hr&Hg&Hb&_). lra.
Qed.

(** X1: Dark field: when the alpha channel of the sample, or at least two of
    its r, g, b channels, are below 0.05, the coverage is 0 (both
    headers), for a shape colour with channels in [0, 1]. *)
Theorem msdf_far_outside_is_transparent (msdfColor shapeColor : vec4) (distance : R) :
  unit_color shapeColor ->
  a msdfColor < 0.05 \/ two_below 0.05 msdfColor ->
  calculateMSDFAlpha_wgsl msdfColor shapeColor distance = 0
  /\ calculateMSDFAlpha_glsl msdfColor shapeColor distance = 0.
Proof.
  intros _ H. pose proof (median_low 0.05 msdfColor H) as Hm.
  unfold calculateMSDFAlpha_wgsl, calculateMSDFAlpha_glsl. cbv zeta.
  destruct (Rlt_dec _ 0.05) as [_|Hn]; [|contradiction].
  rewrite Rmult_0_r. unfold pow.
  destruct (Req_dec_T 0 0) as [_|E]; [split; reflexivity | contradiction].
Qed.

(** X2: Solid field: when the alpha channel of the sample and at least two
    of its r, g, b channels are above 0.95, an opaque shape colour is
    covered fully (both headers). *)
Theorem msdf_far_inside_is_opaque (msdfColor shapeColor : vec4) (distance : R) :
  0.95 < a msdfColor -> two_above 0.95 msdfColor -> a shapeColor = 1 ->
  calculateMSDFAlpha_wgsl msdfColor shapeColor distance = 1
  /\ calculateMSDFAlpha_glsl msdfColor shapeColor distance = 1.
Proof.
  intros Ha H Hs. pose proof (median_high 0.95 msdfColor Ha H) as Hm.
  unfold calculateMSDFAlpha_wgsl, calculateMSDFAlpha_glsl. cbv zeta.
  destruct (Rlt_dec _ 0.05) as [Hl|_]; [lra|].
  destruct (Rlt_dec 0.95 _) as [_|Hn]; [|contradiction].
  rewrite Hs, Rmult_1_r. split; apply pow_one.
Qed.

(** X3: The coverage is a proportion: for a shape colour with channels in
    [0, 1] it lies in [0, 1], whatever the sample and the distance (both
    headers). *)
Theorem msdf_coverage_in_unit_interval (msdfColor shapeColor : vec4) (distance : R) :
  unit_color shapeColor ->
  0 <= calculateMSDFAlpha_wgsl msdfColor shapeColor distance <= 1
  /\ 0 <= calculateMSDFAlpha_glsl msdfColor shapeColor distance <= 1.
Proof.
  intros Hu. pose proof (gamma_pos shapeColor Hu) as Hg.
  destruct Hu as (_&_&_&Ha).
  assert (Hx : forall alpha, 0 <= alpha <= 1 -> 0 <= a shapeColor * alpha <= 1) by (intros; nra).
  unfold calculateMSDFAlpha_wgsl, calculateMSDFAlpha_glsl. cbv zeta.
  destruct (Rlt_dec _ 0.05); [|destruct (Rlt_dec 0.95 _)].
  - split; apply pow_unit; try exact Hg; apply Hx; lra.
  - split; apply pow_unit; try exact Hg; apply Hx; lra.
  - split; apply pow_unit; try exact Hg; apply Hx; apply smoothstep_range.
Qed.

(** X4: The r, g and b channels of the sample enter through their median
    only: exchanging them does not change the coverage (both headers). *)
Theorem msdf_channels_commute (x y z w : R) (shapeColor : vec4) (distance : R) :
  (calculateMSDFAlpha_wgsl (mkVec4 x y z w) shapeColor distance
   = calculateMSDFAlpha_wgsl (mkVec4 y x z w) shapeColor distance
   /\ calculateMSDFAlpha_wgsl (mkVec4 x y z w) shapeColor distance
      = calculateMSDFAlpha_wgsl (mkVec4 x z y w) shapeColor distance)
  /\ (calculateMSDFAlpha_glsl (mkVec4 x y z w) shapeColor distance
      = calculateMSDFAlpha_glsl (mkVec4 y x z w) shapeColor distance
      /\ calculateMSDFAlpha_glsl (mkVec4 x y z w) shapeColor distance
         = calculateMSDFAlpha_glsl (mkVec4 x z y w) shapeColor distance).
Proof.
  assert (E1 : x + y + z - Rmin x (Rmin y z) - Rmax x (Rmax y z)
               = y + x + z - Rmin y (Rmin x z) - Rmax y (Rmax x z)).
  { unfold Rmin, Rmax.
    repeat match goal with
           | |- context [Rle_dec ?u ?v] => is_var u; is_var v; destruct (Rle_dec u v)
           end; lra. }
  assert (E2 : x + y + z - Rmin x (Rmin y z) - Rmax x (Rmax y z)
               = x + z + y - Rmin x (Rmin z y) - Rmax x (Rmax z y)).
  { unfold Rmin, Rmax.
    repeat match goal with
           | |- context [Rle_dec ?u ?v] => is_var u; is_var v; destruct (Rle_dec u v)
           end; lra. }
  unfold calculateMSDFAlpha_wgsl, calculateMSDFAlpha_glsl. cbv zeta. cbn [r g b a].
  rewrite <- E1, <- E2. repeat split; reflexivity.
Qed.

End ShaderFacts.

(** A sample with two dark channels under a white shape colour. *)
Lemma msdf_far_outside_witness :
  Shader.calculateMSDFAlpha_wgsl (Shader.mkVec4 0 0 1 1) (Shader.mkVec4 1 1 1 1) 4 = 0%R
  /\ Shader.calculateMSDFAlpha_glsl (Shader.mkVec4 0 0 1 1) (Shader.mkVec4 1 1 1 1) 4 = 0%R.
Proof.
  apply (ShaderFacts.msdf_far_outside_is_transparent
           (Shader.mkVec4 0 0 1 1) (Shader.mkVec4 1 1 1 1) 4).
  - unfold unit_color. cbn. lra.
  - right. left. cbn. lra.
Defined.

(** A sample with three bright channels under an opaque shape colour. *)
Lemma msdf_far_inside_witness :
  Shader.calculateMSDFAlpha_wgsl (Shader.mkVec4 1 1 1 1) (Shader.mkVec4 0 0 0 1) 4 = 1%R
  /\ Shader.calculateMSDFAlpha_glsl (Shader.mkVec4 1 1 1 1) (Shader.mkVec4 0 0 0 1) 4 = 1%R.
Proof.
  apply (ShaderFacts.msdf_far_inside_is_opaque
           (Shader.mkVec4 1 1 1 1) (Shader.mkVec4 0 0 0 1) 4).
  - cbn. lra.
  - left. cbn. lra.
  - reflexivity.
Defined.

(** A half-way sample under a grey, half-transparent shape colour. *)
Lemma msdf_coverage_witness :
  (0 <= Shader.calculateMSDFAlpha_wgsl (Shader.mkVec4 (1/2) (1/2) (1/2) 1)
          (Shader.mkVec4 (1/2) (1/2) (1/2) (1/2)) 4 <= 1)%R
  /\ (0 <= Shader.calculateMSDFAlpha_glsl (Shader.mkVec4 (1/2) (1/2) (1/2) 1)
             (Shader.mkVec4 (1/2) (1/2) (1/2) (1/2)) 4 <= 1)%R.
Proof.
  apply (ShaderFacts.msdf_coverage_in_unit_interval
           (Shader.mkVec4 (1/2) (1/2) (1/2) 1) (Shader.mkVec4 (1/2) (1/2) (1/2) (1/2)) 4).
  unfold unit_color. cbn. lra.
Defined.

(** ** Invariants of a font's life *)

Lemma array_set_end {A} (a : list (option A)) (i : Z) (v : A) :
  Z.of_nat (length a) = i -> array_set a i v = a ++ [Some v].
Proof.
  intros <-. unfold array_set. rewrite Nat2Z.id, Nat.ltb_irrefl, Nat.sub_diag. reflexivity.
Qed.

Lemma array_get_app {A} (a more : list (option A)) (i : Z) (v : A) :
  array_get a i = Some v -> array_get (a ++ more) i = Some v.
Proof.
  unfold array_get. destruct (i <? 0)%Z; [discriminate|].
  destruct (a !! Z.to_nat i) as [o|] eqn:E; [|discriminate].
  intros H. rewrite (lookup_app_l_Some _ _ _ _ E). exact H.
Qed.

Lemma array_get_dense (this : DynamicBitmapFont) (i : Z) (pd : PageData) :
  pages_dense this -> array_get (pages this) i = Some pd -> src_page (pg_texture pd) = i.
Proof.
  intros [_ Hd]. unfold array_get. destruct (i <? 0)%Z eqn:Ei; [discriminate|].
  apply Z.ltb_ge in Ei.
  destruct (pages this !! Z.to_nat i) as [o|] eqn:E; [|discriminate].
  cbn. intros ->. destruct (Hd _ _ E) as (pd'&Epd&Hs). injection Epd as <-.
  rewrite Hs. lia.
Qed.

Lemma count_getCanvas_app (tr evs : list Event) :
  count_getCanvas (tr ++ evs) = (count_getCanvas tr + count_getCanvas evs)%nat.
Proof. unfold count_getCanvas. rewrite List.filter_app, length_app. reflexivity. Qed.

Lemma trace_ok_emit (e : Event) (this : DynamicBitmapFont) :
  is_getCanvas e = false -> draws_empty e = false -> trace_ok this -> trace_ok (emit e this).
Proof.
  intros Hg Hd [Hc Hf]. unfold trace_ok. cbn [trace pages emit]. split.
  - rewrite count_getCanvas_app. unfold count_getCanvas at 2. cbn. rewrite Hg. cbn. lia.
  - rewrite forallb_app, Hf. cbn. rewrite Hd. reflexivity.
Qed.

Lemma loop_ok_emit (mtw : string -> Q) (e : Event) (this : DynamicBitmapFont)
    (page : PageData) :
  is_getCanvas e = false -> draws_empty e = false ->
  loop_ok mtw this page -> loop_ok mtw (emit e this) page.
Proof.
  intros Hg Hd (D&T&R&K&Tr&P).
  split; [exact D|]. split; [exact T|]. split; [exact R|]. split; [exact K|].
  split; [apply trace_ok_emit; assumption | exact P].
Qed.

Lemma pages_grow_refl (a : DynamicBitmapFont) : pages_grow a a.
Proof. exists []. rewrite app_nil_r. reflexivity. Qed.

Lemma pages_grow_trans (a b c : DynamicBitmapFont) :
  pages_grow a b -> pages_grow b c -> pages_grow a c.
Proof.
  intros [m1 E1] [m2 E2]. exists (m1 ++ m2). rewrite E2, E1, app_assoc. reflexivity.
Qed.

Lemma records_ok_transfer (mtw : string -> Q) (a b : DynamicBitmapFont) :
  same_setup a b -> chars b = chars a -> records_ok mtw a -> records_ok mtw b.
Proof.
  intros (_&_&_&Ep&Es&_&_&_&Ec) Ech R c cd Hc. rewrite Ech in Hc.
  unfold advance_of. rewrite Ec, Ep, Es. exact (R c cd Hc).
Qed.

Section LifeOfPages.
Variable measureTextWidth : string -> Q.
Variable measureText : string -> TextStyle -> Canvas -> CanvasTextMetrics.
Variable getOptimalCanvasAndContext : Q -> Q -> Q -> Canvas.
Variable ImageSource_size : Canvas -> Q -> Q * Q.

Local Abbreviation nextPage := (_nextPage getOptimalCanvasAndContext ImageSource_size).
Local Abbreviation place' := (place getOptimalCanvasAndContext ImageSource_size).
Local Abbreviation pack_char' :=
  (pack_char measureTextWidth measureText getOptimalCanvasAndContext ImageSource_size).
Local Abbreviation loop_ok' := (loop_ok measureTextWidth).

Lemma nextPage_trace (this : DynamicBitmapFont) :
  trace (fst (nextPage this))
  = trace this ++ [EvGetCanvas (_textureSize this) (_textureSize this) (resolution this);
                   EvSetupContext (_currentPageIndex this + 1)%Z (resolution this)]
  /\ _measureCache (fst (nextPage this)) = _measureCache this.
Proof.
  unfold _nextPage. cbn. destruct (ImageSource_size _ _) as [w h]. cbn.
  rewrite <- app_assoc. split; reflexivity.
Qed.

(** A new page is appended after the last one and becomes the current
    page. *)
Lemma loop_ok_nextPage (this : DynamicBitmapFont) :
  pages_dense this -> textures_in_pages this -> records_ok measureTextWidth this ->
  kerning_ok measureTextWidth this -> trace_ok this ->
  loop_ok' (fst (nextPage this)) (snd (nextPage this))
  /\ pages (fst (nextPage this)) = pages this ++ [Some (snd (nextPage this))].
Proof.
  intros [Dl Dd] T R [Kc Kk] [Tc Tf].
  destruct (nextPage_spec getOptimalCanvasAndContext ImageSource_size this)
    as (S&C&Ix&Pg&_&Sp).
  destruct (nextPage_trace this) as (Tr&Mc).
  rewrite (array_set_end _ _ _ Dl) in Pg.
  split; [|exact Pg].
  unfold loop_ok. split; [|split; [|split; [|split; [|split]]]].
  - split.
    + rewrite Pg, Ix, length_app. cbn [length]. lia.
    + intros i o Hi. rewrite Pg in Hi.
      apply lookup_app_Some in Hi. destruct Hi as [Hi|[Hlen Hi]].
      * exact (Dd i o Hi).
      * destruct (i - length (pages this))%nat eqn:En; [|destruct n; discriminate].
        cbn in Hi. injection Hi as <-. eexists. split; [reflexivity|].
        rewrite Sp. lia.
  - intros c cd t Hc Ht. rewrite C in Hc. destruct (T c cd t Hc Ht) as (pd&Hg&Hs).
    exists pd. split; [|exact Hs]. rewrite Pg. apply array_get_app. exact Hg.
  - apply (records_ok_transfer measureTextWidth this); assumption.
  - split.
    + intros c v Hc. rewrite Mc in Hc. exact (Kc c v Hc).
    + intros x y v Hk. unfold kerning_of in Hk. rewrite C in Hk. exact (Kk x y v Hk).
  - unfold trace_ok. rewrite Tr, Pg, count_getCanvas_app, forallb_app, length_app, Tc, Tf.
    split; reflexivity.
  - rewrite Pg, Ix. rewrite <- Dl.
    unfold array_get. destruct (Z.of_nat (length (pages this)) <? 0)%Z eqn:E;
      [apply Z.ltb_lt in E; lia|].
    rewrite Nat2Z.id, lookup_app_r by lia. rewrite Nat.sub_diag. reflexivity.
Qed.

Lemma loop_ok_place (W H pw ph mch : Q) (this : DynamicBitmapFont) (l : Locals) :
  loop_ok' this (pageData l) ->
  loop_ok' (fst (place' W H pw ph mch this l)) (pageData (snd (place' W H pw ph mch this l)))
  /\ pages_grow this (fst (place' W H pw ph mch this l)).
Proof.
  intros L. unfold place.
  destruct (Qgtb (currentX l + pw) W); [destruct (Qgtb (currentY l + mch + ph) H)|].
  - set (this1 := emit _ this).
    assert (L1 : loop_ok' this1 (pageData l)) by (apply loop_ok_emit; [reflexivity..|exact L]).
    destruct L1 as (D&T&R&K&Tr&_).
    destruct (loop_ok_nextPage this1 D T R K Tr) as [L2 Pg].
    destruct (nextPage this1) as [this2 page]. cbn [fst snd pageData] in *.
    split; [exact L2|]. eexists. exact Pg.
  - cbn [fst snd pageData]. split; [exact L | apply pages_grow_refl].
  - cbn [fst snd pageData]. split; [exact L | apply pages_grow_refl].
Qed.

Lemma record_glyph_chars (char : string) (cw pw ph : Q) (this : DynamicBitmapFont) (l : Locals) :
  chars (fst (record_glyph char cw pw ph this l))
  = <[char := mkChar (codePointAt0 char) (- _padding this) (- _padding this)
                (cw - nullish (dropShadow (_style this)) 0 - nullish (_stroke (_style this)) 0)
                ∅
                (if skipTexture l
                 then Some (mkTexture (pg_texture (pageData l))
                              (glyph_frame (pg_texture (pageData l))
                                 (baseRenderedFontSize this / baseMeasurementFontSize this)
                                 (currentX l) (currentY l) pw ph))
                 else None)]> (chars this)
  /\ trace (fst (record_glyph char cw pw ph this l))
     = trace this
       ++ (if skipTexture l
           then [EvDrawGlyph (src_page (pg_texture (pageData l))) char
                   (currentX l + _padding this
                                 * (baseRenderedFontSize this / baseMeasurementFontSize this))
                   (currentY l + _padding this
                                 * (baseRenderedFontSize this / baseMeasurementFontSize this))
                   (baseRenderedFontSize this / baseMeasurementFontSize this)]
           else [])
  /\ _measureCache (fst (record_glyph char cw pw ph this l)) = _measureCache this
  /\ pageData (snd (record_glyph char cw pw ph this l)) = pageData l.
Proof.
  unfold record_glyph. destruct (skipTexture l); cbn.
  - rewrite insert_insert_eq. repeat split.
  - rewrite app_nil_r. repeat split.
Qed.

Lemma loop_ok_record (char : string) (pw ph : Q) (this : DynamicBitmapFont) (l : Locals) :
  loop_ok' this (pageData l) ->
  In char (_currentChars this) ->
  skipTexture l = is_visible char ->
  loop_ok' (fst (record_glyph char (measureTextWidth char) pw ph this l))
           (pageData (snd (record_glyph char (measureTextWidth char) pw ph this l)))
  /\ pages (fst (record_glyph char (measureTextWidth char) pw ph this l)) = pages this.
Proof.
  intros (D&T&R&[Kc Kk]&[Tc Tf]&P) Hin Hskip.
  destruct (record_glyph_spec char (measureTextWidth char) pw ph this l) as (S&Pg&Ix&_).
  destruct (record_glyph_chars char (measureTextWidth char) pw ph this l) as (C&Tr&Mc&Pd).
  split; [|exact Pg].
  unfold loop_ok. rewrite Pd.
  split; [|split; [|split; [|split; [|split]]]].
  - unfold pages_dense. rewrite Pg, Ix. exact D.
  - intros c cd t Hc Ht. rewrite C in Hc. rewrite Pg.
    destruct (string_dec c char) as [->|Hne].
    + rewrite lookup_insert_eq in Hc. injection Hc as <-. cbn [texture] in Ht.
      destruct (skipTexture l); [|discriminate]. injection Ht as <-. cbn [source].
      exists (pageData l). split; [|reflexivity].
      rewrite (array_get_dense this _ _ D P). exact P.
    + rewrite lookup_insert_ne in Hc by congruence. exact (T c cd t Hc Ht).
  - intros c cd Hc. rewrite C in Hc.
    destruct S as (_&_&_&Ep&Es&_&_&_&Ec). unfold advance_of. rewrite Ec, Ep, Es.
    destruct (string_dec c char) as [->|Hne].
    + rewrite lookup_insert_eq in Hc. injection Hc as <-. cbn.
      split; [exact Hin|]. repeat split.
      intros Hv. rewrite Hskip, Hv. reflexivity.
    + rewrite lookup_insert_ne in Hc by congruence. exact (R c cd Hc).
  - split.
    + intros c v Hc. rewrite Mc in Hc. exact (Kc c v Hc).
    + intros x y v Hk. unfold kerning_of in Hk. rewrite C in Hk.
      destruct (string_dec x char) as [->|Hne].
      * rewrite lookup_insert_eq in Hk. cbn in Hk. rewrite lookup_empty in Hk. discriminate.
      * rewrite lookup_insert_ne in Hk by congruence. exact (Kk x y v Hk).
  - unfold trace_ok. rewrite Tr, Pg, count_getCanvas_app, forallb_app, Tc, Tf.
    destruct (skipTexture l) eqn:E; cbn.
    + rewrite <- Hskip. split; [lia | reflexivity].
    + split; [lia | reflexivity].
  - rewrite Pg, Ix. exact P.
Qed.

(** One turn of the packing loop keeps the invariant. *)
Lemma loop_ok_pack_char (W H : Q) (st : DynamicBitmapFont * Locals) (char : string) :
  loop_ok' (fst st) (pageData (snd st)) ->
  In char (_currentChars (fst st)) ->
  loop_ok' (fst (pack_char' W H st char)) (pageData (snd (pack_char' W H st char)))
  /\ pages_grow (fst st) (fst (pack_char' W H st char)).
Proof.
  intros L Hin. unfold pack_char.
  set (this2 := emit (EvMeasureText char) (emit (EvMeasureTextWidth char) (fst st))).
  assert (L2 : loop_ok' this2 (pageData (snd st))).
  { unfold this2. apply loop_ok_emit; [reflexivity..|].
    apply loop_ok_emit; [reflexivity..|exact L]. }
  set (pw := paddedWidth_of this2 _). set (ph := paddedHeight_of this2 _).
  set (mch := shelf_height char ph _).
  set (l0 := mkLocals _ _ _ _ (is_visible char)).
  destruct (loop_ok_place W H pw ph mch this2 l0 L2) as [L3 G3].
  destruct (place_spec getOptimalCanvasAndContext ImageSource_size W H pw ph mch this2 l0)
    as (S3&_&V3&_).
  set (placed := place' W H pw ph mch this2 l0) in *.
  destruct (loop_ok_record char pw ph (fst placed) (snd placed) L3) as [L4 Pg4].
  - destruct S3 as (_&_&_&_&_&_&_&_&Ec). rewrite Ec. exact Hin.
  - rewrite V3. reflexivity.
  - split; [exact L4|]. destruct G3 as [more E]. exists more. rewrite Pg4. exact E.
Qed.

Lemma loop_ok_fold (W H : Q) (cs : list string) (st : DynamicBitmapFont * Locals) :
  loop_ok' (fst st) (pageData (snd st)) ->
  (forall c, In c cs -> In c (_currentChars (fst st))) ->
  loop_ok' (fst (fold_left (pack_char' W H) cs st))
           (pageData (snd (fold_left (pack_char' W H) cs st)))
  /\ pages_grow (fst st) (fst (fold_left (pack_char' W H) cs st)).
Proof.
  revert st. induction cs as [|c rest IH]; intros st L Hin; cbn [fold_left].
  - split; [exact L | apply pages_grow_refl].
  - destruct (loop_ok_pack_char W H st c L (Hin c (or_introl eq_refl))) as [L1 G1].
    destruct (pack_char_spec measureTextWidth measureText getOptimalCanvasAndContext
                ImageSource_size W H st c) as ((_&_&_&_&_&_&_&_&Ec)&_).
    destruct (IH (pack_char' W H st c) L1) as [L2 G2].
    + intros c' Hc'. rewrite Ec. apply Hin. right. exact Hc'.
    + split; [exact L2 | eapply pages_grow_trans; eassumption].
Qed.

End LifeOfPages.

(** ** The list of new characters *)

Lemma dedupe_from_fresh (suffix prefix : list string) :
  List.NoDup (filter_from (fun c i => (indexOf (prefix ++ suffix) c =? i)%Z)
                (Z.of_nat (length prefix)) suffix)
  /\ forall x,
       In x (filter_from (fun c i => (indexOf (prefix ++ suffix) c =? i)%Z)
               (Z.of_nat (length prefix)) suffix) ->
       ~ In x prefix.
Proof.
  revert prefix. induction suffix as [|y rest IH]; intros prefix.
  - cbn. split; [constructor | intros x []].
  - cbn [filter_from]. rewrite first_occurrence_test.
    specialize (IH (prefix ++ [y])).
    rewrite <- app_assoc in IH. cbn [app] in IH.
    rewrite length_app in IH. cbn [length] in IH.
    replace (Z.of_nat (length prefix + 1)) with (Z.of_nat (length prefix) + 1)%Z in IH by lia.
    destruct IH as [Hnd Hfresh].
    destruct (includes prefix y) eqn:E; cbn [negb].
    + split; [exact Hnd|]. intros x Hx Hp. apply (Hfresh x Hx).
      apply in_or_app. left. exact Hp.
    + split.
      * constructor; [|exact Hnd]. intros Hy. apply (Hfresh y Hy).
        apply in_or_app. right. left. reflexivity.
      * intros x [<-|Hx] Hp.
        -- apply includes_In in Hp. congruence.
        -- apply (Hfresh x Hx). apply in_or_app. left. exact Hp.
Qed.

Lemma new_characters_fresh (resolveCharacters : string -> list string) (text : string)
    (this : DynamicBitmapFont) :
  List.NoDup (new_characters resolveCharacters text this)
  /\ forall c, In c (new_characters resolveCharacters text this) ->
               ~ In c (_currentChars this) /\ In c (resolveCharacters text).
Proof.
  unfold new_characters, filter_indexed.
  destruct (dedupe_from_fresh
              (List.filter (fun char => negb (includes (_currentChars this) char))
                 (resolveCharacters text)) []) as [Hnd _].
  split; [exact Hnd|].
  intros c Hc. apply filter_from_In in Hc. apply filter_In in Hc.
  destruct Hc as [Hin Hneg]. split; [|exact Hin].
  intros Hcur. apply includes_In in Hcur. rewrite Hcur in Hneg. discriminate.
Qed.

(** ** The kerning pass, continued *)

Lemma for_each_preserves {A S} (Inv : S -> Prop) (body : A -> S -> option S) (l : list A) :
  (forall x s s', In x l -> Inv s -> body x s = Some s' -> Inv s') ->
  forall s s', Inv s -> for_each body l s = Some s' -> Inv s'.
Proof.
  induction l as [|x rest IH]; intros Hbody s s' Hs E.
  - cbn in E. injection E as <-. exact Hs.
  - cbn [for_each] in E. destruct (body x s) as [s1|] eqn:E1; [|discriminate].
    apply (IH (fun y t t' Hy => Hbody y t t' (or_intror Hy)) s1 s');
      [|exact E].
    apply (Hbody x s s1); [left; reflexivity | exact Hs | exact E1].
Qed.

Lemma measures_only_refl (a : DynamicBitmapFont) : measures_only a a.
Proof. exists []. rewrite app_nil_r. split; reflexivity. Qed.

Lemma measures_only_trans (a b c : DynamicBitmapFont) :
  measures_only a b -> measures_only b c -> measures_only a c.
Proof.
  intros (e1&E1&F1) (e2&E2&F2). exists (e1 ++ e2).
  rewrite E2, E1, app_assoc, forallb_app, F1, F2. split; reflexivity.
Qed.

Lemma measures_only_emit (text : string) (a : DynamicBitmapFont) :
  measures_only a (emit (EvMeasureTextWidth text) a).
Proof. exists [EvMeasureTextWidth text]. split; reflexivity. Qed.

Lemma truthy_nonzero (v : Q) : truthy v = true -> ~ v == 0.
Proof.
  unfold truthy. rewrite negb_true_iff. intros H E.
  apply Qeq_bool_iff in E. congruence.
Qed.

Section KerningLife.
Variable measureTextWidth : string -> Q.

Local Abbreviation kerning_ok' := (kerning_ok measureTextWidth).

(** With a cache of measured widths, the width the kerning pass uses
    for a character is its measured width, cached or not. *)
Lemma measureCached_keeps (ch : string) (this : DynamicBitmapFont) :
  kerning_ok' this ->
  fst (measureCached measureTextWidth ch this) = measureTextWidth ch
  /\ kerning_ok' (snd (measureCached measureTextWidth ch this))
  /\ measures_only this (snd (measureCached measureTextWidth ch this)).
Proof.
  intros [Kc Kk]. unfold measureCached.
  assert (Hmiss :
            kerning_ok'
              (set_measureCache (<[ch := measureTextWidth ch]> (_measureCache this))
                 (emit (EvMeasureTextWidth ch) this))
            /\ measures_only this
                 (set_measureCache (<[ch := measureTextWidth ch]> (_measureCache this))
                    (emit (EvMeasureTextWidth ch) this))).
  { split.
    - split; [|exact Kk]. intros c v Hc. cbn in Hc.
      destruct (string_dec c ch) as [->|Hne].
      + rewrite lookup_insert_eq in Hc. congruence.
      + rewrite lookup_insert_ne in Hc by congruence. exact (Kc c v Hc).
    - exists [EvMeasureTextWidth ch]. split; reflexivity. }
  destruct (_measureCache this !! ch) as [c|] eqn:E; [destruct (truthy c)|]; cbn [fst snd].
  - split; [exact (Kc ch c E)|]. split; [split; assumption | apply measures_only_refl].
  - split; [reflexivity | exact Hmiss].
  - split; [reflexivity | exact Hmiss].
Qed.

Lemma set_kerning_keeps (x y : string) (amount : Q) (this this' : DynamicBitmapFont) :
  ~ amount == 0 ->
  amount = pair_kerning measureTextWidth x y \/ amount = pair_kerning measureTextWidth y x ->
  set_kerning x y amount this = Some this' ->
  kerning_ok' this ->
  kerning_ok' this' /\ measures_only this this'
  /\ kerning_of this' x y = Some amount.
Proof.
  intros Hnz Hval E [Kc Kk]. unfold set_kerning in E.
  destruct (chars this !! x) as [cd|] eqn:Ex; [|discriminate]. injection E as <-.
  split; [|split; [exists []; cbn; rewrite app_nil_r; split; reflexivity|]].
  - split; [exact Kc|]. intros u v q Hk. unfold kerning_of in Hk. cbn [chars set_chars] in Hk.
    destruct (string_dec u x) as [->|Hne].
    + rewrite lookup_insert_eq in Hk. cbn [kerning] in Hk.
      destruct (string_dec v y) as [->|Hne'].
      * rewrite lookup_insert_eq in Hk. injection Hk as <-. split; assumption.
      * rewrite lookup_insert_ne in Hk by congruence.
        apply (Kk x v q). unfold kerning_of. rewrite Ex. exact Hk.
    + rewrite lookup_insert_ne in Hk by congruence. exact (Kk u v q Hk).
  - unfold kerning_of. cbn [chars set_chars]. rewrite lookup_insert_eq. cbn [kerning].
    apply lookup_insert_eq.
Qed.

(** One pair: the invariant is kept, only measurements are made, and a
    non-zero amount ends in the entry of the second character for the
    first. *)
Lemma kerning_pair_keeps (first second : string) (this this' : DynamicBitmapFont) :
  kerning_pair measureTextWidth first second this = Some this' ->
  kerning_ok' this ->
  kerning_ok' this' /\ measures_only this this'
  /\ (~ pair_kerning measureTextWidth first second == 0 ->
      kerning_of this' second first = Some (pair_kerning measureTextWidth first second)).
Proof.
  intros E K. unfold kerning_pair in E.
  destruct (measureCached_keeps first this K) as (V1&K1&M1).
  destruct (measureCached measureTextWidth first this) as [c1 this1]. cbn [fst snd] in *.
  destruct (measureCached_keeps second this1 K1) as (V2&K2&M2).
  destruct (measureCached measureTextWidth second this1) as [c2 this2]. cbn [fst snd] in *.
  subst c1 c2. fold (pair_kerning measureTextWidth first second) in E.
  set (amount := pair_kerning measureTextWidth first second) in *.
  set (this3 := emit (EvMeasureTextWidth (first ++ second)) this2) in E.
  assert (K3 : kerning_ok' this3) by exact K2.
  assert (M3 : measures_only this this3).
  { eapply measures_only_trans; [exact M1|]. eapply measures_only_trans; [exact M2|].
    apply measures_only_emit. }
  destruct (truthy amount) eqn:Et.
  - pose proof (truthy_nonzero amount Et) as Hnz.
    destruct (set_kerning first second amount this3) as [this4|] eqn:E4; [|discriminate].
    destruct (set_kerning_keeps first second amount this3 this4 Hnz (or_introl eq_refl) E4 K3)
      as (K4&M4&_).
    set (this5 := emit (EvMeasureTextWidth (first ++ second)) this4) in E.
    assert (K5 : kerning_ok' this5) by exact K4.
    destruct (set_kerning_keeps second first amount this5 this' Hnz (or_intror eq_refl) E K5)
      as (K6&M6&V6).
    split; [exact K6|]. split; [|intros _; exact V6].
    eapply measures_only_trans; [exact M3|]. eapply measures_only_trans; [exact M4|].
    eapply measures_only_trans; [apply measures_only_emit | exact M6].
  - injection E as <-. split; [exact K3|]. split.
    + eapply measures_only_trans; [exact M3 | apply measures_only_emit].
    + intros Hnz. exfalso. apply Hnz. unfold truthy in Et.
      rewrite negb_false_iff in Et. apply Qeq_bool_iff. exact Et.
Qed.

Lemma applyKerning_keeps (newChars : list string) (this this' : DynamicBitmapFont) :
  _applyKerning measureTextWidth newChars this = Some this' ->
  kerning_ok' this ->
  kerning_ok' this' /\ measures_only this this'.
Proof.
  intros E K. unfold _applyKerning in E.
  apply (for_each_preserves (fun s => kerning_ok' s /\ measures_only this s)
           (kerning_first measureTextWidth) newChars) with (s := this);
    [|split; [exact K | apply measures_only_refl] | exact E].
  intros first s s' _ [Ks Ms] Es. unfold kerning_first in Es.
  apply (for_each_preserves (fun t => kerning_ok' t /\ measures_only this t)
           (kerning_pair measureTextWidth first) (_currentChars s)) with (s := s);
    [|split; assumption | exact Es].
  intros second t t' _ [Kt Mt] Et.
  destruct (kerning_pair_keeps first second t t' Et Kt) as (K'&M'&_).
  split; [exact K' | eapply measures_only_trans; eassumption].
Qed.

End KerningLife.

Lemma measurements_are_quiet (evs : list Event) :
  forallb is_measurement evs = true ->
  count_getCanvas evs = 0%nat /\ forallb (fun e => negb (draws_empty e)) evs = true.
Proof.
  induction evs as [|e rest IH]; intros H; [split; reflexivity|].
  cbn [forallb] in H. apply andb_true_iff in H. destruct H as [He Hr].
  destruct (IH Hr) as [Hc Hf]. destruct e; try discriminate.
  unfold count_getCanvas in *. cbn. split; assumption.
Qed.

Lemma kerning_only_record (a b : DynamicBitmapFont) (c : string) (cd : CharData) :
  kerning_only a b -> chars b !! c = Some cd ->
  exists cd0, chars a !! c = Some cd0
              /\ id cd0 = id cd /\ xOffset cd0 = xOffset cd /\ yOffset cd0 = yOffset cd
              /\ xAdvance cd0 = xAdvance cd /\ texture cd0 = texture cd.
Proof.
  intros K Hc. pose proof (kerning_only_lookup a b c K) as E. rewrite Hc in E.
  destruct (chars a !! c) as [cd0|]; [|discriminate].
  cbn in E. injection E as E1 E2 E3 E4 E5. exists cd0. repeat split; congruence.
Qed.

Section LifeOfFont.
Variable resolveCharacters : string -> list string.
Variable measureTextWidth : string -> Q.
Variable measureText : string -> TextStyle -> Canvas -> CanvasTextMetrics.
Variable getOptimalCanvasAndContext : Q -> Q -> Q -> Canvas.
Variable ImageSource_size : Canvas -> Q -> Q * Q.
Variable AbstractBitmapFont_baseRenderedFontSize : Q.
Variable AbstractBitmapFont_baseMeasurementFontSize : Q.

Local Abbreviation nextPage := (_nextPage getOptimalCanvasAndContext ImageSource_size).
Local Abbreviation pack_char' :=
  (pack_char measureTextWidth measureText getOptimalCanvasAndContext ImageSource_size).
Local Abbreviation pack_characters' :=
  (pack_characters measureTextWidth measureText getOptimalCanvasAndContext ImageSource_size).
Local Abbreviation ensureCharacters' :=
  (ensureCharacters resolveCharacters measureTextWidth measureText
     getOptimalCanvasAndContext ImageSource_size).
Local Abbreviation new_characters' := (new_characters resolveCharacters).
Local Abbreviation life_ok' := (life_ok measureTextWidth).
Local Abbreviation reachable' :=
  (reachable resolveCharacters measureTextWidth measureText getOptimalCanvasAndContext
     ImageSource_size AbstractBitmapFont_baseRenderedFontSize
     AbstractBitmapFont_baseMeasurementFontSize).
Local Abbreviation new' :=
  (new_DynamicBitmapFont AbstractBitmapFont_baseRenderedFontSize
     AbstractBitmapFont_baseMeasurementFontSize).

Lemma new_life_ok (options : DynamicBitmapFontOptions) : life_ok' (new' options).
Proof.
  split; [apply new_font_ok|].
  unfold new_DynamicBitmapFont, life_ok, pages_dense, textures_in_pages, records_ok,
    kerning_ok, trace_ok, kerning_of.
  destruct (o_overrideSize options); cbn;
    (split; [constructor|]; split; [split; [reflexivity | intros i o Hi; discriminate]|];
     split; [intros c cd t Hc; rewrite lookup_empty in Hc; discriminate|];
     split; [intros c cd Hc; rewrite lookup_empty in Hc; discriminate|];
     split; [split; [intros c v Hc; rewrite lookup_empty in Hc; discriminate
                    | intros x y v Hk; rewrite lookup_empty in Hk; discriminate]|];
     split; reflexivity).
Qed.

Lemma pack_characters_life (cs : list string) (this p : DynamicBitmapFont) :
  life_ok' this -> List.NoDup cs ->
  (forall c, In c cs -> ~ In c (_currentChars this)) ->
  pack_characters' cs this = Some p ->
  life_ok' p /\ pages_grow this p.
Proof.
  intros (Hok&Hnd&D&T&R&K&Tr) Hcs Hfresh E.
  destruct (pack_characters_spec measureTextWidth measureText getOptimalCanvasAndContext
              ImageSource_size cs this Hok) as (p'&Ep&Pp&Cp&_&_&Inp&Outp).
  rewrite E in Ep. injection Ep as <-.
  unfold pack_characters in E.
  set (this1 := set_currentChars (_currentChars this ++ cs) this) in E.
  assert (R1 : records_ok measureTextWidth this1).
  { intros c cd Hc. destruct (R c cd Hc) as (Hin&Rest).
    split; [|exact Rest]. cbn. apply in_or_app. left. exact Hin. }
  revert E.
  assert (Hstart : exists this2 page,
             (if (_currentPageIndex this1 =? -1)%Z then Some (nextPage this1)
              else match array_get (pages this1) (_currentPageIndex this1) with
                   | Some page => Some (this1, page)
                   | None => None
                   end) = Some (this2, page)
             /\ loop_ok measureTextWidth this2 page
             /\ pages_grow this this2
             /\ _currentChars this2 = _currentChars this ++ cs).
  { destruct (_currentPageIndex this1 =? -1)%Z eqn:Ei.
    - destruct (loop_ok_nextPage measureTextWidth getOptimalCanvasAndContext ImageSource_size
                  this1 D T R1 K Tr) as [L Pg].
      destruct (nextPage_spec getOptimalCanvasAndContext ImageSource_size this1)
        as ((_&_&_&_&_&_&_&_&Ec)&_).
      destruct (nextPage this1) as [this2 page]. cbn [fst snd] in *.
      exists this2, page. split; [reflexivity|]. split; [exact L|].
      split; [eexists; exact Pg | exact Ec].
    - apply Z.eqb_neq in Ei.
      destruct Hok as [[Hm|[_ [page Eg]]] _]; [contradiction|].
      change (array_get (pages this1) (_currentPageIndex this1) = Some page) in Eg.
      rewrite Eg. exists this1, page. split; [reflexivity|].
      split; [|split; [exists []; cbn; rewrite app_nil_r; reflexivity | reflexivity]].
      split; [exact D|]. split; [exact T|]. split; [exact R1|]. split; [exact K|].
      split; [exact Tr | exact Eg]. }
  intros E. destruct Hstart as (this2&page&Es&L2&G2&C2). rewrite Es in E.
  cbv zeta in E. injection E as E.
  set (W := cv_width (canvasAndContext page) / resolution this2) in E.
  set (H := cv_height (canvasAndContext page) / resolution this2) in E.
  set (st0 := (this2, mkLocals page (_currentX this2) (_currentY this2) 0 false)) in E.
  destruct (loop_ok_fold measureTextWidth measureText getOptimalCanvasAndContext
              ImageSource_size W H cs st0) as [L3 G3].
  { exact L2. }
  { intros c Hc. unfold st0. cbn [fst]. rewrite C2. apply in_or_app. right. exact Hc. }
  set (st := fold_left (pack_char' W H) cs st0) in *.
  assert (L4 : loop_ok measureTextWidth p (pageData (snd st))).
  { rewrite <- E.
    apply (loop_ok_emit measureTextWidth
             (EvSourceUpdate (src_page (pg_texture (pageData (snd st))))) (fst st));
      [reflexivity | reflexivity | exact L3]. }
  destruct L4 as (D4&T4&R4&K4&Tr4&P4).
  split.
  - split; [|split; [|split; [|split; [|split; [|split]]]]]; try assumption.
    + split.
      * right. exact Pp.
      * intros c Hc. rewrite Cp in Hc.
        destruct (in_dec string_dec c cs) as [Hin|Hnin].
        -- destruct (Inp c Hin) as (cd&Ecd&_). eexists; exact Ecd.
        -- rewrite (Outp c Hnin). apply Hok. apply in_app_or in Hc. tauto.
    + rewrite Cp. apply List.NoDup_app; [exact Hnd | exact Hcs|].
      intros c Hc Hc'. exact (Hfresh c Hc' Hc).
  - rewrite <- E. eapply pages_grow_trans; [exact G2|]. exact G3.
Qed.

Lemma life_ok_kerning (p q : DynamicBitmapFont) :
  life_ok' p -> kerning_only p q -> kerning_ok measureTextWidth q -> measures_only p q ->
  life_ok' q.
Proof.
  intros (Hok&Hnd&D&T&R&_&Tr) K Kq (evs&Etr&Hev).
  pose proof K as (S&Pg&Ix&_). pose proof S as (_&_&_&Ep&Es&_&_&_&Ec).
  destruct (measurements_are_quiet evs Hev) as [Hc Hf].
  split; [|split; [|split; [|split; [|split; [|split]]]]].
  - destruct Hok as [Hpage Hrec]. split.
    + rewrite Pg, Ix. exact Hpage.
    + intros c Hc'. rewrite Ec in Hc'. eapply kerning_only_is_Some; [exact K|].
      apply Hrec. exact Hc'.
  - rewrite Ec. exact Hnd.
  - unfold pages_dense. rewrite Pg, Ix. exact D.
  - intros c cd t Hcd Ht. rewrite Pg.
    destruct (kerning_only_record p q c cd K Hcd) as (cd0&E0&_&_&_&_&Et).
    apply (T c cd0 t E0). rewrite Et. exact Ht.
  - intros c cd Hcd.
    destruct (kerning_only_record p q c cd K Hcd) as (cd0&E0&Ei&Ex&Ey&Ea&Et).
    destruct (R c cd0 E0) as (R1&R2&R3&R4&R5&R6).
    unfold advance_of in *. rewrite Ec, Ep, Es, <- Ei, <- Ex, <- Ey, <- Ea, <- Et.
    repeat split; assumption.
  - exact Kq.
  - destruct Tr as [Tc Tf]. unfold trace_ok.
    rewrite Etr, Pg, count_getCanvas_app, forallb_app, Tc, Tf, Hc, Hf. split; [lia | reflexivity].
Qed.

(** A call of [ensureCharacters] that returns keeps the invariant and
    only appends pages. *)
Lemma ensureCharacters_life (text : string) (this this' : DynamicBitmapFont) :
  life_ok' this -> ensureCharacters' text this = Some this' ->
  life_ok' this' /\ pages_grow this this'.
Proof.
  intros L E.
  destruct (new_characters_fresh resolveCharacters text this) as [Hnd Hfresh].
  unfold ensureCharacters in E.
  set (cs := new_characters' text this) in *.
  destruct (length cs =? 0)%nat.
  { injection E as <-. split; [exact L | apply pages_grow_refl]. }
  destruct (pack_characters' cs this) as [p|] eqn:Ep; [|discriminate].
  destruct (pack_characters_life cs this p L Hnd (fun c Hc => proj1 (Hfresh c Hc)) Ep)
    as [Lp Gp].
  destruct (_skipKerning p).
  - pose proof Lp as (Hokp&_&_&_&_&Kp&_).
    destruct (applyKerning_keeps measureTextWidth cs p this' E Kp) as [Kq Mq].
    destruct L as (Hok&_).
    destruct (pack_characters_spec measureTextWidth measureText getOptimalCanvasAndContext
                ImageSource_size cs this Hok) as (p'&Ep'&_&Cp&_).
    rewrite Ep in Ep'. injection Ep' as <-.
    destruct (applyKerning_kerning_only measureTextWidth cs p) as (q&Eq&K).
    + intros c Hc. apply Hokp. rewrite Cp. apply in_or_app. right. exact Hc.
    + apply Hokp.
    + rewrite E in Eq. injection Eq as <-.
      split; [apply (life_ok_kerning p this'); assumption|].
      destruct Gp as [more Em]. exists more. destruct K as (_&Pg&_). rewrite Pg. exact Em.
  - injection E as <-. split; assumption.
Qed.

(** Every font a program can hold satisfies the invariant. *)
Lemma reachable_life_ok (this : DynamicBitmapFont) : reachable' this -> life_ok' this.
Proof.
  induction 1 as [options | this this' text _ IH E].
  - apply new_life_ok.
  - exact (proj1 (ensureCharacters_life text this this' IH E)).
Qed.

(** X5: [ensureCharacters] never throws on a font made by the constructor
    and grown by earlier calls: the current page is there, and every
    record the kerning pass writes to exists. *)
Theorem ensureCharacters_never_throws (text : string) (this : DynamicBitmapFont) :
  reachable' this -> exists this', ensureCharacters' text this = Some this'.
Proof.
  intros Hr. destruct (reachable_life_ok this Hr) as (Hok&_).
  destruct (ensureCharacters_spec measureTextWidth measureText getOptimalCanvasAndContext
              ImageSource_size resolveCharacters text this Hok) as (this'&E&_).
  exists this'. exact E.
Qed.

(** X6: The current characters are listed once each, and they are exactly
    the keys of [chars]. *)
Theorem current_chars_are_the_keys (this : DynamicBitmapFont) :
  reachable' this ->
  List.NoDup (_currentChars this)
  /\ forall c, In c (_currentChars this) <-> is_Some (chars this !! c).
Proof.
  intros Hr. destruct (reachable_life_ok this Hr) as ((_&Hrec)&Hnd&_&_&R&_).
  split; [exact Hnd|]. intros c. split; [apply Hrec|].
  intros [cd Hc]. exact (proj1 (R c cd Hc)).
Qed.


(** X8: The four empty characters never get a texture and are never drawn. *)
Theorem empty_characters_never_drawn (this : DynamicBitmapFont) (c : string) :
  reachable' this -> is_visible c = false ->
  (forall cd, chars this !! c = Some cd -> texture cd = None)
  /\ forall page x y fontScale, ~ In (EvDrawGlyph page c x y fontScale) (trace this).
Proof.
  intros Hr Hv. destruct (reachable_life_ok this Hr) as (_&_&_&_&R&_&_&Tf).
  split.
  - intros cd Hc. destruct (R c cd Hc) as (_&_&_&_&_&R6). exact (R6 Hv).
  - intros page x y fs Hin. rewrite forallb_forall in Tf.
    specialize (Tf _ Hin). cbn in Tf. rewrite Hv in Tf. discriminate.
Qed.

(** X9: The page array has no hole: its entries are pages, the page at
    index i carries the texture source made i-th, and the current page
    index is the last index. *)
Theorem pages_have_no_holes (this : DynamicBitmapFont) :
  reachable' this ->
  _currentPageIndex this = (Z.of_nat (length (pages this)) - 1)%Z
  /\ forall i, (i < length (pages this))%nat ->
       exists pd, pages this !! i = Some (Some pd)
                  /\ src_page (pg_texture pd) = Z.of_nat i.
Proof.
  intros Hr. destruct (reachable_life_ok this Hr) as (_&_&[Dl Dd]&_).
  split; [lia|]. intros i Hi.
  destruct (lookup_lt_is_Some_2 (pages this) i Hi) as [o Ho].
  destruct (Dd i o Ho) as (pd&->&Hs). exists pd. split; assumption.
Qed.

(** X10: The texture of every glyph is cut from the texture source of a page
    held in the page array, at the index that source names. *)
Theorem glyph_textures_point_into_pages (this : DynamicBitmapFont) (c : string)
    (cd : CharData) (t : Texture) :
  reachable' this -> chars this !! c = Some cd -> texture cd = Some t ->
  exists pd, array_get (pages this) (src_page (source t)) = Some pd
             /\ pg_texture pd = source t.
Proof.
  intros Hr Hc Ht. destruct (reachable_life_ok this Hr) as (_&_&_&T&_).
  exact (T c cd t Hc Ht).
Qed.

(** X11: The font took exactly one canvas from the pool per page it holds. *)
Theorem one_canvas_per_page (this : DynamicBitmapFont) :
  reachable' this -> count_getCanvas (trace this) = length (pages this).
Proof.
  intros Hr. destruct (reachable_life_ok this Hr) as (_&_&_&_&_&_&Tc&_). exact Tc.
Qed.

(** X12: The measure cache never holds anything but the measured width of
    its key. *)
Theorem measure_cache_is_faithful (this : DynamicBitmapFont) (c : string) (v : Q) :
  reachable' this -> _measureCache this !! c = Some v -> v = measureTextWidth c.
Proof.
  intros Hr Hc. destruct (reachable_life_ok this Hr) as (_&_&_&_&_&[Kc _]&_).
  exact (Kc c v Hc).
Qed.

(** X13: A kerning entry is never zero, and it is the measured width of its
    two characters joined, in one of the two orders, minus their two
    widths. *)
Theorem kerning_entries_are_pair_amounts (this : DynamicBitmapFont) (x y : string) (v : Q) :
  reachable' this -> kerning_of this x y = Some v ->
  ~ v == 0
  /\ (v = measureTextWidth (x ++ y)%string - (measureTextWidth x + measureTextWidth y)
      \/ v = measureTextWidth (y ++ x)%string - (measureTextWidth y + measureTextWidth x)).
Proof.
  intros Hr Hk. destruct (reachable_life_ok this Hr) as (_&_&_&_&_&[_ Kk]&_).
  exact (Kk x y v Hk).
Qed.

(** X14: The atlas only grows: a call keeps the pages it found as the first
    pages, appends the new characters to the current ones, and leaves
    frame, page and advance of every resident glyph as they were. *)
Theorem resident_glyphs_stay (text : string) (this this' : DynamicBitmapFont) :
  reachable' this -> ensureCharacters' text this = Some this' ->
  (exists more, pages this' = pages this ++ more)
  /\ _currentChars this' = _currentChars this ++ new_characters' text this
  /\ forall c, In c (_currentChars this) ->
       frame_of this' c = frame_of this c
       /\ page_of this' c = page_of this c
       /\ xAdvance_of this' c = xAdvance_of this c.
Proof.
  intros Hr E. pose proof (reachable_life_ok this Hr) as L.
  destruct (ensureCharacters_life text this this' L E) as [_ G].
  pose proof L as (Hok&_).
  destruct (ensureCharacters_spec measureTextWidth measureText getOptimalCanvasAndContext
              ImageSource_size resolveCharacters text this Hok) as (q&Eq&_&Hnil&Hcc&_).
  rewrite E in Eq. injection Eq as <-.
  split; [exact G|]. split; [exact Hcc|].
  intros c Hc.
  destruct (new_characters' text this) as [|c0 cs0] eqn:Ecs.
  { rewrite (Hnil eq_refl). repeat split. }
  destruct (ensureCharacters_packs measureTextWidth measureText getOptimalCanvasAndContext
              ImageSource_size resolveCharacters text this Hok) as (p&q&Ep&Eq&K).
  { rewrite Ecs. discriminate. }
  rewrite E in Eq. injection Eq as <-.
  destruct (pack_characters_spec measureTextWidth measureText getOptimalCanvasAndContext
              ImageSource_size (new_characters' text this) this Hok)
    as (p'&Ep'&_&_&_&_&_&Outp).
  rewrite Ep in Ep'. injection Ep' as <-.
  destruct (new_characters_fresh resolveCharacters text this) as [_ Hfresh].
  assert (Hsame : chars p !! c = chars this !! c).
  { apply Outp. intros Hin. exact (proj1 (Hfresh c Hin) Hc). }
  rewrite (kerning_only_frame_of p this' c K), (kerning_only_page_of p this' c K),
    (kerning_only_xAdvance_of p this' c K).
  unfold frame_of, page_of, xAdvance_of. rewrite Hsame. repeat split.
Qed.

(** X15: The kerning pass calls no collaborator but the width measurement:
    it draws nothing, takes no canvas and uploads nothing. *)
Theorem kerning_pass_only_measures (newChars : list string) (this this' : DynamicBitmapFont) :
  reachable' this -> _applyKerning measureTextWidth newChars this = Some this' ->
  exists evs, trace this' = trace this ++ evs /\ forallb is_measurement evs = true.
Proof.
  intros Hr E. destruct (reachable_life_ok this Hr) as (_&_&_&_&_&K&_).
  exact (proj2 (applyKerning_keeps measureTextWidth newChars this this' E K)).
Qed.

End LifeOfFont.

(** ** One pair of the kerning pass *)

Section KerningPair.
Variable measureTextWidth : string -> Q.

Lemma measureCached_chars (ch : string) (this : DynamicBitmapFont) :
  chars (snd (measureCached measureTextWidth ch this)) = chars this.
Proof.
  unfold measureCached.
  destruct (_measureCache this !! ch) as [c|]; [destruct (truthy c)|]; reflexivity.
Qed.

Lemma set_kerning_lookup (x y : string) (amount : Q) (this this' : DynamicBitmapFont)
    (u v : string) :
  set_kerning x y amount this = Some this' ->
  kerning_of this' u v
  = if (String.eqb u x && String.eqb v y)%bool then Some amount else kerning_of this u v.
Proof.
  unfold set_kerning. destruct (chars this !! x) as [cd|] eqn:Ex; [|discriminate].
  intros E. injection E as <-. unfold kerning_of. cbn [chars set_chars].
  destruct (String.eqb u x) eqn:Eu.
  - apply String.eqb_eq in Eu. subst u. rewrite lookup_insert_eq, Ex. cbn [kerning andb].
    destruct (String.eqb v y) eqn:Ev.
    + apply String.eqb_eq in Ev. subst v. apply lookup_insert_eq.
    + apply String.eqb_neq in Ev. apply lookup_insert_ne. congruence.
  - apply String.eqb_neq in Eu. rewrite lookup_insert_ne by congruence. reflexivity.
Qed.

(** X16: The pair (first, second), on a font whose cache holds measured
    widths: a non-zero amount is written to both entries,
    chars[first].kerning[second] and chars[second].kerning[first], and to
    no other; a zero amount changes no entry. *)
Theorem kerning_pair_writes_both_entries
    (first second : string) (this this' : DynamicBitmapFont) :
  kerning_ok measureTextWidth this ->
  kerning_pair measureTextWidth first second this = Some this' ->
  let amount :=
    measureTextWidth (first ++ second)%string
    - (measureTextWidth first + measureTextWidth second) in
  (~ amount == 0 ->
   kerning_of this' first second = Some amount
   /\ kerning_of this' second first = Some amount
   /\ forall u v, ~ (u = first /\ v = second) -> ~ (u = second /\ v = first) ->
        kerning_of this' u v = kerning_of this u v)
  /\ (amount == 0 -> forall u v, kerning_of this' u v = kerning_of this u v).
Proof.
  intros K E amount. unfold kerning_pair in E.
  destruct (measureCached_keeps measureTextWidth first this K) as (V1&K1&_).
  pose proof (measureCached_chars first this) as C1.
  destruct (measureCached measureTextWidth first this) as [c1 this1]. cbn [fst snd] in *.
  destruct (measureCached_keeps measureTextWidth second this1 K1) as (V2&_&_).
  pose proof (measureCached_chars second this1) as C2.
  destruct (measureCached measureTextWidth second this1) as [c2 this2]. cbn [fst snd] in *.
  subst c1 c2. fold amount in E.
  assert (H0 : forall u v, kerning_of this2 u v = kerning_of this u v).
  { intros u v. unfold kerning_of. rewrite C2, C1. reflexivity. }
  destruct (truthy amount) eqn:Et.
  - destruct (set_kerning first second amount _) as [this4|] eqn:E4; [|discriminate].
    pose proof (fun u v => set_kerning_lookup first second amount _ this4 u v E4) as L4.
    pose proof (fun u v => set_kerning_lookup second first amount _ this' u v E) as L5.
    split.
    + intros _. split; [|split].
      * rewrite L5. destruct (String.eqb first second && String.eqb second first)%bool;
          [reflexivity|].
        change (kerning_of (emit (EvMeasureTextWidth (first ++ second)) this4) first second)
          with (kerning_of this4 first second).
        rewrite L4, !String.eqb_refl. reflexivity.
      * rewrite L5, !String.eqb_refl. reflexivity.
      * intros u v N1 N2. rewrite L5.
        destruct (String.eqb u second && String.eqb v first)%bool eqn:E1.
        { apply andb_true_iff in E1. destruct E1 as [A B].
          apply String.eqb_eq in A, B. exfalso. apply N2. split; assumption. }
        change (kerning_of (emit (EvMeasureTextWidth (first ++ second)) this4) u v)
          with (kerning_of this4 u v).
        rewrite L4.
        destruct (String.eqb u first && String.eqb v second)%bool eqn:E2.
        { apply andb_true_iff in E2. destruct E2 as [A B].
          apply String.eqb_eq in A, B. exfalso. apply N1. split; assumption. }
        apply H0.
    + intros Hz. exfalso. exact (truthy_nonzero amount Et Hz).
  - injection E as <-. split.
    + intros Hnz. exfalso. apply Hnz. unfold truthy in Et.
      rewrite negb_false_iff in Et. apply Qeq_bool_iff. exact Et.
    + intros _ u v. apply H0.
Qed.

End KerningPair.

(** ** Drawing *)

Lemma count_calls_app (p : CtxCall -> bool) (a b : list CtxCall) :
  count_calls p (a ++ b) = (count_calls p a + count_calls p b)%nat.
Proof. unfold count_calls. rewrite List.filter_app, length_app. reflexivity. Qed.

Lemma path_calls_count (calls : list CtxCall) :
  forallb path_call calls = true ->
  count_calls is_save calls = 0%nat /\ count_calls is_restore calls = 0%nat
  /\ count_calls is_text calls = 0%nat.
Proof.
  induction calls as [|c rest IH]; intros H; [repeat split|].
  cbn [forallb] in H. apply andb_true_iff in H. destruct H as [Hc Hr].
  destruct (IH Hr) as (I1&I2&I3). unfold count_calls in *.
  destruct c; cbn in *; try discriminate; repeat split; assumption.
Qed.

Lemma draw_command_path_calls (command : PathCommand) :
  forallb path_call (draw_command command) = true /\ (length (draw_command command) <= 1)%nat
  /\ forallb (fun c => negb (is_paint c)) (draw_command command) = true.
Proof.
  unfold draw_command.
  repeat match goal with |- context [String.eqb ?a ?b] => destruct (String.eqb a b) end;
    cbn; repeat split; lia.
Qed.

Lemma replay_commands (cmds : list PathCommand) (acc : list CtxCall) :
  fold_left (fun calls command => calls ++ draw_command command) cmds acc
  = acc ++ flat_map draw_command cmds.
Proof.
  revert acc. induction cmds as [|c rest IH]; intros acc; cbn [fold_left flat_map].
  - rewrite app_nil_r. reflexivity.
  - rewrite IH, app_assoc. reflexivity.
Qed.

Lemma flat_map_path_calls (cmds : list PathCommand) :
  forallb path_call (flat_map draw_command cmds) = true
  /\ (length (flat_map draw_command cmds) <= length cmds)%nat
  /\ forallb (fun c => negb (is_paint c)) (flat_map draw_command cmds) = true.
Proof.
  induction cmds as [|c rest (I1&I2&I3)]; [repeat split; cbn; lia|].
  destruct (draw_command_path_calls c) as (H1&H2&H3).
  cbn [flat_map length]. rewrite !forallb_app, length_app, H1, H3, I1, I3.
  repeat split; lia.
Qed.


Lemma drawOpenTypePath_path_calls (path : OpenTypePath) (s f : bool) :
  forallb path_call (_drawOpenTypePath path s f) = true.
Proof.
  unfold _drawOpenTypePath. destruct (commands path) as [[|c rest]|]; try reflexivity.
  rewrite replay_commands. cbn [app forallb path_call is_save is_restore is_text orb negb andb].
  destruct (flat_map_path_calls (c :: rest)) as (H1&_).
  rewrite !forallb_app, H1. destruct s, f; reflexivity.
Qed.

Lemma outline_calls_path_calls (char : string) (sx sy fs size : Q) (style : DrawStyle)
    (otf : OpenTypeFont) (thickness : Q) :
  forallb path_call (fst (outline_calls char sx sy fs size style otf thickness)) = true.
Proof.
  unfold outline_calls.
  destruct (ds_stroke style) as [stroke|]; [destruct (Qgtb thickness 0)|];
    destruct (getPath otf char sx sy size) as [path|]; cbn [fst snd];
    destruct (ds_fill style); cbn [fst snd];
    rewrite ?forallb_app, ?drawOpenTypePath_path_calls; reflexivity.
Qed.

Lemma canvas_calls_plain (char : string) (x y : Q) (style : DrawStyle) (thickness : Q) :
  count_calls is_save (_drawGlyphWithCanvas char x y style thickness) = 0%nat
  /\ count_calls is_restore (_drawGlyphWithCanvas char x y style thickness) = 0%nat.
Proof.
  unfold _drawGlyphWithCanvas.
  destruct (stroke_wanted style thickness), (ds_fill style); split; reflexivity.
Qed.

(** Save, scale, outline calls, restore, then nothing or the text draw. *)
Lemma outline_draw_bracketed
    (size : Q) (char : string) (x y fontScale : Q) (style : DrawStyle)
    (openTypeFont : OpenTypeFont) (strokeThickness : Q) :
  exists inner tail,
    _drawGlyphWithOpenType size char x y fontScale style openTypeFont strokeThickness
    = [CSave; CScale fontScale fontScale] ++ inner ++ [CRestore] ++ tail
    /\ count_calls is_save inner = 0%nat
    /\ count_calls is_restore inner = 0%nat
    /\ count_calls is_text inner = 0%nat
    /\ (tail = [] \/ tail = _drawGlyphWithCanvas char x y style strokeThickness)
    /\ count_calls is_save
         (_drawGlyphWithOpenType size char x y fontScale style openTypeFont strokeThickness)
       = 1%nat
    /\ count_calls is_restore
         (_drawGlyphWithOpenType size char x y fontScale style openTypeFont strokeThickness)
       = 1%nat.
Proof.
  unfold _drawGlyphWithOpenType.
  pose proof (outline_calls_path_calls char (x / fontScale) (y / fontScale) fontScale size
                style openTypeFont strokeThickness) as Hp.
  destruct (outline_calls char (x / fontScale) (y / fontScale) fontScale size style
              openTypeFont strokeThickness) as [calls done]. cbn [fst snd] in *.
  destruct (path_calls_count calls Hp) as (P1&P2&P3).
  destruct (canvas_calls_plain char x y style strokeThickness) as [F1 F2].
  destruct done.
  - exists calls, []. split; [reflexivity|]. split; [exact P1|]. split; [exact P2|].
    split; [exact P3|]. split; [left; reflexivity|].
    rewrite !count_calls_app, P1, P2. split; reflexivity.
  - exists (calls ++ [CConsoleWarn]), (_drawGlyphWithCanvas char x y style strokeThickness).
    split; [rewrite <- !app_assoc; reflexivity|].
    rewrite !count_calls_app, P1, P2, P3, F1, F2.
    repeat split; try reflexivity. right. reflexivity.
Qed.

(** X19: [_drawGlyphWithOpenType]: the calls are save, scale, outline calls,
    restore, and then either nothing or, after a failure, the text draw
    of [_drawGlyphWithCanvas] at the unscaled point.  Save and restore
    are called once each, and no text is drawn between them. *)
Theorem drawGlyphWithOpenType_is_bracketed
    (size : Q) (char : string) (x y fontScale : Q) (style : DrawStyle)
    (openTypeFont : OpenTypeFont) (strokeThickness : Q) :
  exists inner tail,
    _drawGlyphWithOpenType size char x y fontScale style openTypeFont strokeThickness
    = [CSave; CScale fontScale fontScale] ++ inner ++ [CRestore] ++ tail
    /\ count_calls is_save inner = 0%nat
    /\ count_calls is_restore inner = 0%nat
    /\ count_calls is_text inner = 0%nat
    /\ (tail = [] \/ tail = _drawGlyphWithCanvas char x y style strokeThickness)
    /\ count_calls is_save
         (_drawGlyphWithOpenType size char x y fontScale style openTypeFont strokeThickness)
       = 1%nat
    /\ count_calls is_restore
         (_drawGlyphWithOpenType size char x y fontScale style openTypeFont strokeThickness)
       = 1%nat.
Proof. apply outline_draw_bracketed. Qed.

(** X20: [_drawGlyphWithOpenType] when [getPath] throws for the glyph: no
    outline call is made, and the glyph is drawn as text at the unscaled
    point (x, y) after the context was restored.  With neither stroke nor
    fill to draw, [getPath] is not asked and nothing is drawn. *)
Theorem drawGlyphWithOpenType_falls_back
    (size : Q) (char : string) (x y fontScale : Q) (style : DrawStyle)
    (openTypeFont : OpenTypeFont) (strokeThickness : Q) :
  getPath openTypeFont char (x / fontScale) (y / fontScale) size = None ->
  _drawGlyphWithOpenType size char x y fontScale style openTypeFont strokeThickness
  = if (stroke_wanted style strokeThickness || ds_fill style)%bool
    then [CSave; CScale fontScale fontScale; CConsoleWarn; CRestore]
         ++ _drawGlyphWithCanvas char x y style strokeThickness
    else [CSave; CScale fontScale fontScale; CRestore].
Proof.
  intros Hfail. unfold _drawGlyphWithOpenType, outline_calls, stroke_wanted. rewrite Hfail.
  destruct (ds_stroke style) as [stroke|]; [destruct (Qgtb strokeThickness 0)|];
    destruct (ds_fill style); reflexivity.
Qed.

(** X21: [_drawGlyph], whichever way the glyph is drawn: every save of the
    context is matched by a restore. *)
Theorem drawGlyph_restores_what_it_saves
    (Cache_get : string -> option OpenTypeFontData) (fontFamily : FontFamily) (size : Q)
    (metrics : GlyphMetrics) (x y fontScale : Q) (style : DrawStyle) :
  count_calls is_save (_drawGlyph Cache_get fontFamily size metrics x y fontScale style)
  = count_calls is_restore (_drawGlyph Cache_get fontFamily size metrics x y fontScale style)
  /\ (fst (_getOpenTypeFont Cache_get fontFamily) = None ->
      count_calls is_save (_drawGlyph Cache_get fontFamily size metrics x y fontScale style)
      = 0%nat).
Proof.
  unfold _drawGlyph.
  destruct (_getOpenTypeFont Cache_get fontFamily) as [[otf|] warned]; cbn [fst snd].
  - split; [|discriminate].
    destruct (outline_draw_bracketed size (gm_text metrics)
                (x + (match ds_stroke style with Some stroke => sk_width stroke | None => 0 end)
                     * fontScale / 2)
                (y - (match ds_stroke style with Some stroke => sk_width stroke | None => 0 end)
                     * fontScale / 2
                 + gm_lineHeight metrics * fontScale - gm_descent metrics * fontScale)
                fontScale style otf
                ((match ds_stroke style with Some stroke => sk_width stroke | None => 0 end)
                 * fontScale)) as (_&_&_&_&_&_&_&S&R).
    rewrite !count_calls_app, S, R. destruct warned; reflexivity.
  - destruct (canvas_calls_plain (gm_text metrics)
                (x + (match ds_stroke style with Some stroke => sk_width stroke | None => 0 end)
                     * fontScale / 2)
                (y - (match ds_stroke style with Some stroke => sk_width stroke | None => 0 end)
                     * fontScale / 2
                 + gm_lineHeight metrics * fontScale - gm_descent metrics * fontScale)
                style
                ((match ds_stroke style with Some stroke => sk_width stroke | None => 0 end)
                 * fontScale)) as [F1 F2].
    rewrite !count_calls_app, F1, F2. destruct warned; split; reflexivity.
Qed.

(** ** Looking up the OpenType font *)

Lemma strip_quotes_idempotent (family : string) :
  strip_quotes (strip_quotes family) = strip_quotes family.
Proof.
  induction family as [|c rest IH]; [reflexivity|].
  cbn [strip_quotes]. destruct (is_quote c) eqn:E; [exact IH|].
  cbn [strip_quotes]. rewrite E, IH. reflexivity.
Qed.


(** The key asked of the cache holds no quotation mark before its
    suffix. *)
Lemma strip_quotes_clean (family : string) (c : ascii) :
  In c (list_ascii_of_string (strip_quotes family)) -> is_quote c = false.
Proof.
  induction family as [|a rest IH]; [intros []|].
  cbn [strip_quotes]. destruct (is_quote a) eqn:E; [exact IH|].
  cbn. intros [<-|H]; [exact E | exact (IH H)].
Qed.

(** ** Releasing the font *)

Lemma release_pages_dense (ps : list (option PageData)) :
  (forall i o, ps !! i = Some o -> exists pd, o = Some pd) ->
  snd (release_pages ps) = true
  /\ length (List.filter is_returnCanvas (fst (release_pages ps))) = length ps
  /\ length (fst (release_pages ps)) = (2 * length ps)%nat.
Proof.
  induction ps as [|o rest IH]; intros H; [repeat split|].
  destruct (H 0%nat o eq_refl) as [pd ->].
  destruct (IH (fun i o' Hi => H (S i) o' Hi)) as (I1&I2&I3).
  cbn [release_pages fst snd List.filter is_returnCanvas length].
  rewrite I2, I3. repeat split; [exact I1 | lia].
Qed.

Section Release.
Variable resolveCharacters : string -> list string.
Variable measureTextWidth : string -> Q.
Variable measureText : string -> TextStyle -> Canvas -> CanvasTextMetrics.
Variable getOptimalCanvasAndContext : Q -> Q -> Q -> Canvas.
Variable ImageSource_size : Canvas -> Q -> Q * Q.
Variable AbstractBitmapFont_baseRenderedFontSize : Q.
Variable AbstractBitmapFont_baseMeasurementFontSize : Q.

(** X23: [destroy] on a font a program can hold runs to its end: it returns
    to the pool exactly as many canvases as the font took from it, makes
    two calls per page after the call of the base class, and leaves
    [pages] null. *)
Theorem destroy_returns_every_canvas (this : DynamicBitmapFont) :
  reachable resolveCharacters measureTextWidth measureText getOptimalCanvasAndContext
    ImageSource_size AbstractBitmapFont_baseRenderedFontSize
    AbstractBitmapFont_baseMeasurementFontSize this ->
  snd (destroy this) = None
  /\ length (List.filter is_returnCanvas (fst (destroy this))) = count_getCanvas (trace this)
  /\ length (fst (destroy this)) = (1 + 2 * length (pages this))%nat.
Proof.
  intros Hr.
  pose proof (reachable_life_ok _ _ _ _ _ _ _ this Hr) as (_&_&[_ Dd]&_&_&_&Tc&_).
  destruct (release_pages_dense (pages this)) as (R1&R2&R3).
  { intros i o Hi. destruct (Dd i o Hi) as (pd&->&_). exists pd. reflexivity. }
  unfold destroy. cbn [fst snd List.filter is_returnCanvas length].
  rewrite R1, R2, R3, Tc. repeat split.
Qed.

End Release.

(** ** The properties at work on the kerning font *)

Lemma kern_font_after_call (text : string) (f : DynamicBitmapFont) :
  Demo.kern_run text Demo.kern_font = Some f -> Demo.kern_reachable f.
Proof.
  intros E. exact (reach_ensure _ _ _ _ _ _ _ Demo.kern_font f text (reach_new _ _ _ _ _ _ _ _) E).
Qed.

Lemma ensureCharacters_never_throws_witness :
  exists f, Demo.kern_run "A V" Demo.kern_font = Some f.
Proof.
  apply (ensureCharacters_never_throws Demo.resolveCharacters Demo.kern_width
           (Demo.metrics_of Demo.square_height) Demo.getOptimalCanvasAndContext
           Demo.ImageSource_size 100 100 "A V" Demo.kern_font).
  exact (reach_new _ _ _ _ _ _ _ _).
Defined.

Lemma current_chars_are_the_keys_witness :
  exists f,
    Demo.kern_run "A V" Demo.kern_font = Some f
    /\ List.NoDup (_currentChars f)
    /\ forall c, In c (_currentChars f) <-> is_Some (chars f !! c).
Proof.
  eexists. split; [vm_compute; reflexivity|].
  apply (current_chars_are_the_keys Demo.resolveCharacters Demo.kern_width
           (Demo.metrics_of Demo.square_height) Demo.getOptimalCanvasAndContext
           Demo.ImageSource_size 100 100).
  apply (kern_font_after_call "A V"). vm_compute. reflexivity.
Defined.


Lemma empty_characters_never_drawn_witness :
  exists f,
    Demo.kern_run "A V" Demo.kern_font = Some f
    /\ (forall cd, chars f !! " "%string = Some cd -> texture cd = None)
    /\ forall page x y fontScale, ~ In (EvDrawGlyph page " " x y fontScale) (trace f).
Proof.
  eexists. split; [vm_compute; reflexivity|].
  apply (empty_characters_never_drawn Demo.resolveCharacters Demo.kern_width
           (Demo.metrics_of Demo.square_height) Demo.getOptimalCanvasAndContext
           Demo.ImageSource_size 100 100).
  - apply (kern_font_after_call "A V"). vm_compute. reflexivity.
  - reflexivity.
Defined.

Lemma pages_have_no_holes_witness :
  exists f,
    Demo.kern_run "A V" Demo.kern_font = Some f
    /\ _currentPageIndex f = (Z.of_nat (length (pages f)) - 1)%Z
    /\ forall i, (i < length (pages f))%nat ->
         exists pd, pages f !! i = Some (Some pd) /\ src_page (pg_texture pd) = Z.of_nat i.
Proof.
  eexists. split; [vm_compute; reflexivity|].
  apply (pages_have_no_holes Demo.resolveCharacters Demo.kern_width
           (Demo.metrics_of Demo.square_height) Demo.getOptimalCanvasAndContext
           Demo.ImageSource_size 100 100).
  apply (kern_font_after_call "A V"). vm_compute. reflexivity.
Defined.

Lemma glyph_textures_point_into_pages_witness :
  exists f cd t,
    Demo.kern_run "A V" Demo.kern_font = Some f
    /\ chars f !! "V"%string = Some cd
    /\ texture cd = Some t
    /\ exists pd, array_get (pages f) (src_page (source t)) = Some pd
                  /\ pg_texture pd = source t.
Proof.
  do 3 eexists. split; [vm_compute; reflexivity|]. split; [vm_compute; reflexivity|].
  split; [vm_compute; reflexivity|].
  eapply (glyph_textures_point_into_pages Demo.resolveCharacters Demo.kern_width
           (Demo.metrics_of Demo.square_height) Demo.getOptimalCanvasAndContext
           Demo.ImageSource_size 100 100 _ "V").
  - apply (kern_font_after_call "A V"). vm_compute. reflexivity.
  - vm_compute. reflexivity.
  - vm_compute. reflexivity.
Defined.

Lemma one_canvas_per_page_witness :
  exists f,
    Demo.kern_run "A V" Demo.kern_font = Some f
    /\ count_getCanvas (trace f) = length (pages f).
Proof.
  eexists. split; [vm_compute; reflexivity|].
  apply (one_canvas_per_page Demo.resolveCharacters Demo.kern_width
           (Demo.metrics_of Demo.square_height) Demo.getOptimalCanvasAndContext
           Demo.ImageSource_size 100 100).
  apply (kern_font_after_call "A V"). vm_compute. reflexivity.
Defined.

Lemma measure_cache_is_faithful_witness :
  exists f v,
    Demo.kern_run "A V" Demo.kern_font = Some f
    /\ _measureCache f !! "V"%string = Some v
    /\ v = Demo.kern_width "V".
Proof.
  do 2 eexists. split; [vm_compute; reflexivity|]. split; [vm_compute; reflexivity|].
  eapply (measure_cache_is_faithful Demo.resolveCharacters Demo.kern_width
           (Demo.metrics_of Demo.square_height) Demo.getOptimalCanvasAndContext
           Demo.ImageSource_size 100 100 _ "V").
  - apply (kern_font_after_call "A V"). vm_compute. reflexivity.
  - vm_compute. reflexivity.
Defined.

Lemma kerning_entries_are_pair_amounts_witness :
  exists f v,
    Demo.kern_run "A V" Demo.kern_font = Some f
    /\ kerning_of f "A" "V" = Some v
    /\ ~ v == 0
    /\ (v = Demo.kern_width "AV" - (Demo.kern_width "A" + Demo.kern_width "V")
        \/ v = Demo.kern_width "VA" - (Demo.kern_width "V" + Demo.kern_width "A")).
Proof.
  do 2 eexists. split; [vm_compute; reflexivity|]. split; [vm_compute; reflexivity|].
  eapply (kerning_entries_are_pair_amounts Demo.resolveCharacters Demo.kern_width
           (Demo.metrics_of Demo.square_height) Demo.getOptimalCanvasAndContext
           Demo.ImageSource_size 100 100 _ "A" "V").
  - apply (kern_font_after_call "A V"). vm_compute. reflexivity.
  - vm_compute. reflexivity.
Defined.

Lemma resident_glyphs_stay_witness :
  exists f f',
    Demo.kern_run "A V" Demo.kern_font = Some f
    /\ Demo.kern_run "VW" f = Some f'
    /\ (exists more, pages f' = pages f ++ more)
    /\ _currentChars f' = _currentChars f ++ new_characters Demo.resolveCharacters "VW" f
    /\ forall c, In c (_currentChars f) ->
         frame_of f' c = frame_of f c
         /\ page_of f' c = page_of f c
         /\ xAdvance_of f' c = xAdvance_of f c.
Proof.
  do 2 eexists. split; [vm_compute; reflexivity|]. split; [vm_compute; reflexivity|].
  apply (resident_glyphs_stay Demo.resolveCharacters Demo.kern_width
           (Demo.metrics_of Demo.square_height) Demo.getOptimalCanvasAndContext
           Demo.ImageSource_size 100 100 "VW").
  - apply (kern_font_after_call "A V"). vm_compute. reflexivity.
  - vm_compute. reflexivity.
Defined.

Lemma kerning_pass_only_measures_witness :
  exists f f',
    Demo.kern_run "A V" Demo.kern_font = Some f
    /\ _applyKerning Demo.kern_width ["A"; "V"]%string f = Some f'
    /\ exists evs, trace f' = trace f ++ evs /\ forallb is_measurement evs = true.
Proof.
  do 2 eexists. split; [vm_compute; reflexivity|]. split; [vm_compute; reflexivity|].
  apply (kerning_pass_only_measures Demo.resolveCharacters Demo.kern_width
           (Demo.metrics_of Demo.square_height) Demo.getOptimalCanvasAndContext
           Demo.ImageSource_size 100 100 ["A"; "V"]%string).
  - apply (kern_font_after_call "A V"). vm_compute. reflexivity.
  - vm_compute. reflexivity.
Defined.

Lemma kerning_pair_writes_both_entries_witness :
  exists f',
    kerning_pair Demo.kern_width "A" "V" Demo.kern_font = None
    /\ kerning_pair Demo.kern_width "A" "V"
         (set_chars (<["A"%string := mkChar None 0 0 0 ∅ None]>
                       (<["V"%string := mkChar None 0 0 0 ∅ None]> ∅)) Demo.kern_font)
       = Some f'
    /\ kerning_of f' "A" "V" = Some (Demo.kern_width "AV"
                                      - (Demo.kern_width "A" + Demo.kern_width "V"))
    /\ kerning_of f' "V" "A" = Some (Demo.kern_width "AV"
                                      - (Demo.kern_width "A" + Demo.kern_width "V")).
Proof.
  eexists. split; [vm_compute; reflexivity|]. split; [vm_compute; reflexivity|].
  assert (K : kerning_ok Demo.kern_width
                (set_chars (<["A"%string := mkChar None 0 0 0 ∅ None]>
                              (<["V"%string := mkChar None 0 0 0 ∅ None]> ∅)) Demo.kern_font)).
  { split.
    - intros c v Hc. vm_compute in Hc. discriminate.
    - intros x y v Hk. unfold kerning_of in Hk. cbn [chars set_chars] in Hk.
      destruct (string_dec x "A") as [->|Hx];
        [rewrite lookup_insert_eq in Hk; cbn in Hk; rewrite lookup_empty in Hk; discriminate|].
      rewrite lookup_insert_ne in Hk by congruence.
      destruct (string_dec x "V") as [->|Hy];
        [rewrite lookup_insert_eq in Hk; cbn in Hk; rewrite lookup_empty in Hk; discriminate|].
      rewrite lookup_insert_ne in Hk by congruence. rewrite lookup_empty in Hk. discriminate. }
  destruct (kerning_pair_writes_both_entries Demo.kern_width "A" "V" _ _ K
              ltac:(vm_compute; reflexivity)) as [Hnz _].
  destruct Hnz as (H1&H2&_); [vm_compute; discriminate|].
  split; assumption.
Defined.

Lemma drawGlyphWithOpenType_falls_back_witness :
  _drawGlyphWithOpenType 100 "A" 8 40 (2 # 5) (mkDrawStyle None true) Demo.broken_font 0
  = [CSave; CScale (2 # 5) (2 # 5); CConsoleWarn; CRestore; CFillText "A" 8 40].
Proof.
  apply (drawGlyphWithOpenType_falls_back 100 "A" 8 40 (2 # 5) (mkDrawStyle None true)
           Demo.broken_font 0).
  reflexivity.
Defined.

Lemma destroy_returns_every_canvas_witness :
  exists f,
    Demo.kern_run "A V" Demo.kern_font = Some f
    /\ snd (destroy f) = None
    /\ length (List.filter is_returnCanvas (fst (destroy f))) = count_getCanvas (trace f)
    /\ length (fst (destroy f)) = (1 + 2 * length (pages f))%nat.
Proof.
  eexists. split; [vm_compute; reflexivity|].
  apply (destroy_returns_every_canvas Demo.resolveCharacters Demo.kern_width
           (Demo.metrics_of Demo.square_height) Demo.getOptimalCanvasAndContext
           Demo.ImageSource_size 100 100).
  apply (kern_font_after_call "A V"). vm_compute. reflexivity.
Defined.
